(** * GraphQL diagnostics of the Salesforce mobile extension

    A shallow embedding of
      - [lsp/server/src/validateGraphql.ts]: extraction of the embedded
        queries of a document, validation of each of them by the registered
        diagnostic producers, remapping of the reported ranges and the cap on
        the number of diagnostics;
      - [lsp/server/src/utils/orgUtils.ts]: [OrgUtils.getObjectInfo] with its
        memory cache, disk cache and table of network requests in flight,
        first with a working file system and one org, then with file-system
        calls that throw and a change of org between any two pieces.

    Numbers of the source ([number]) that hold counts, lines and columns are
    integers ([Z]).  JavaScript objects that the code mutates in place (the
    [Position]s of a diagnostic's range) live in a store and are named by
    references, so that two names of one object see each other's updates. *)

From stdpp Require Import gmap strings list fin_maps pretty.

(** ** Outcomes of calls and promises *)

(** A synchronous call returns a value or throws. *)
Inductive Completion (A : Type) : Type :=
| Normal (a : A)
| Throw.
Arguments Normal {A} a.
Arguments Throw {A}.

(** The state a promise ends in: fulfilled with a value, rejected, or
    pending for ever (its executor never calls [resolve] or [reject]). *)
Inductive Promise (A : Type) : Type :=
| Fulfilled (v : A)
| Rejected
| Pending.
Arguments Fulfilled {A} v.
Arguments Rejected {A}.
Arguments Pending {A}.

Definition is_rejected {A} (p : Promise A) : bool :=
  match p with Rejected => true | _ => false end.

Definition is_pending {A} (p : Promise A) : bool :=
  match p with Pending => true | _ => false end.

Definition fulfilled_value {A} (p : Promise A) : option A :=
  match p with Fulfilled v => Some v | _ => None end.

(** [Promise.all]: rejected as soon as one input is rejected; otherwise
    fulfilled, once every input is, with the array of the values in the order
    of the inputs; pending while an input that is not rejected stays so. *)
Definition Promise_all {A} (ps : list (Promise A)) : Promise (list A) :=
  if existsb is_rejected ps then Rejected
  else if existsb is_pending ps then Pending
  else Fulfilled (omap fulfilled_value ps).

(** The same join, step by step.  [Promise.all] keeps an array of values,
    one slot per input; the inputs settle in any order ([sched] lists the
    indices in the order of settlement); a fulfilment fills its own slot, the
    first rejection rejects the join; the join is fulfilled when no slot is
    empty. *)
Fixpoint all_settle {A} (sched : list nat) (ps : list (Promise A))
    (values : list (option A)) : Promise (list A) :=
  match sched with
  | [] =>
      match mapM id values with
      | Some vs => Fulfilled vs
      | None => Pending
      end
  | i :: sched' =>
      match ps !! i with
      | Some (Fulfilled v) => all_settle sched' ps (<[i := Some v]> values)
      | Some Rejected => Rejected
      | _ => all_settle sched' ps values
      end
  end.

Definition Promise_all_sched {A} (sched : list nat) (ps : list (Promise A))
    : Promise (list A) :=
  all_settle sched ps (replicate (length ps) None).

(** A schedule is complete when every promise that settles occurs in it. *)
Definition complete_schedule {A} (sched : list nat) (ps : list (Promise A))
    : Prop :=
  ∀ i p, ps !! i = Some p → is_pending p = false → i ∈ sched.

Module ValidateGraphql.

(** ** Data *)

(** [Position] of vscode-languageserver: zero-based line and character. *)
Record Position : Type := mkPosition { line : Z; character : Z }.

(** A [Range] holds two [Position] objects, here by reference. *)
Record Range : Type := mkRange { start : nat; end_ : nat }.

Record Diagnostic : Type := mkDiagnostic {
  range : Range;
  severity : Z;
  message : string;
  data : string
}.

(** The store of [Position] objects. *)
Abbreviation heap := (gmap nat Position).

Record TextDocument : Type := mkTextDocument {
  uri : string;
  languageId : string;
  version : Z;
  getText : string
}.

(** [TextDocument.create(uri, languageId, version, content)]. *)
Definition TextDocument_create (u l : string) (v : Z) (content : string)
    : TextDocument :=
  mkTextDocument u l v content.

(** [Source] of graphql-js, as graphql-tag-pluck returns it. *)
Record Location : Type := mkLocation { loc_line : Z; loc_column : Z }.

Record Source : Type := mkSource {
  body : string;
  name : string;
  locationOffset : Location
}.

(** Calls to the collaborators, in the order they are made. *)
Inductive Call : Type :=
| CallPluck (file_uri text : string)
| CallParse (graphql : string)
| CallProducer (index : nat) (graphql : string).

Record World : Type := mkWorld { positions : heap; calls : list Call }.

Definition log (c : Call) (w : World) : World :=
  mkWorld (positions w) (calls w ++ [c]).

Definition set_positions (h : heap) (w : World) : World :=
  mkWorld h (calls w).

(** ** [updateDiagnosticOffset] *)

Definition add_character (columnOffset : Z) (p : Position) : Position :=
  mkPosition (line p) (character p + columnOffset).

Definition add_line (lineOffset : Z) (p : Position) : Position :=
  mkPosition (line p + lineOffset) (character p).

(** [if (p.line === 0) { p.character += columnOffset; }] on the object [r]. *)
Definition add_character_on_first_line (columnOffset : Z) (r : nat) (h : heap)
    : heap :=
  match h !! r with
  | Some p =>
      if (line p =? 0)%Z then <[r := add_character columnOffset p]> h else h
  | None => h
  end.

(** [p.line += lineOffset] on the object [r]. *)
Definition add_line_at (lineOffset : Z) (r : nat) (h : heap) : heap :=
  alter (add_line lineOffset) r h.

Definition updateDiagnosticOffset (diagnostic : Diagnostic)
    (lineOffset columnOffset : Z) (h : heap) : heap :=
  let start := start (range diagnostic) in
  let end_ := end_ (range diagnostic) in
  let h1 := add_character_on_first_line columnOffset start h in
  let h2 := add_character_on_first_line columnOffset end_ h1 in
  let h3 := add_line_at lineOffset start h2 in
  add_line_at lineOffset end_ h3.

(** ** The diagnostic producers *)

(** What a call of [validateDocument] does: it throws, or it returns a
    promise, which the model runs to its final state at once. *)
Inductive ProducerCall : Type :=
| Returns (p : Promise (list Diagnostic))
| Throws.

(** The interface [DiagnosticProducer<N>]: one method, which may allocate
    and change [Position] objects. *)
Record DiagnosticProducer (ASTNode : Type) : Type := mkProducer {
  validateDocument :
    TextDocument → ASTNode → heap → ProducerCall * heap
}.
Arguments mkProducer {ASTNode} _.
Arguments validateDocument {ASTNode} _ _ _ _.

Section Pipeline.

(** The collaborators the source imports: the GraphQL parser of graphql-js
    ([parse] throws on a syntax error), the extractor of graphql-tag-pluck
    (called with the options of the source) and the registry of rules, which
    the source fills with [MisspelledUiapi]. *)
Variable ASTNode : Type.
Variable parse : string → Completion ASTNode.
Variable gqlPluckFromCodeStringSync : string → string → Completion (list Source).
Variable diagnosticProducers : list (DiagnosticProducer ASTNode).

(** [producers.map((producer) => producer.validateDocument(textDocument,
    graphqlAstNode))]: the producers are called in the order of the registry;
    a call that throws ends the [map]. *)
Fixpoint mapProducers (producers : list (DiagnosticProducer ASTNode))
    (index : nat) (textDocument : TextDocument) (graphqlAstNode : ASTNode)
    (w : World) : Completion (list (Promise (list Diagnostic))) * World :=
  match producers with
  | [] => (Normal [], w)
  | producer :: rest =>
      let w0 := log (CallProducer index (getText textDocument)) w in
      match validateDocument producer textDocument graphqlAstNode
              (positions w0) with
      | (Throws, h) => (Throw, set_positions h w0)
      | (Returns p, h) =>
          match mapProducers rest (S index) textDocument graphqlAstNode
                  (set_positions h w0) with
          | (Normal ps, w1) => (Normal (p :: ps), w1)
          | (Throw, w1) => (Throw, w1)
          end
      end
  end.

(** [validateOneGraphQuery]: everything inside the [try] that throws, or
    whose awaited promise is rejected, leads to the final [return []]. *)
Definition validateOneGraphQuery (textDocument : TextDocument)
    (graphql : string) (w : World) : Promise (list Diagnostic) * World :=
  let w0 := log (CallParse graphql) w in
  match parse graphql with
  | Throw => (Fulfilled [], w0)
  | Normal graphqlAstNode =>
      match mapProducers diagnosticProducers 0 textDocument graphqlAstNode
              w0 with
      | (Throw, w1) => (Fulfilled [], w1)
      | (Normal promises, w1) =>
          match Promise_all promises with
          | Fulfilled allResults => (Fulfilled (concat allResults), w1)
          | Rejected => (Fulfilled [], w1)
          | Pending => (Pending, w1)
          end
      end
  end.

(** The inner loop of [validateGraphql]:
    [for (const item of diagnostics) { if (results.length >= maxCount) break;
       updateDiagnosticOffset(item, lineOffset, columnOffset);
       results.push(item); }] *)
Fixpoint pushItems (maxCount lineOffset columnOffset : Z)
    (diagnostics results : list Diagnostic) (h : heap)
    : list Diagnostic * heap :=
  match diagnostics with
  | [] => (results, h)
  | item :: rest =>
      if (Z.of_nat (length results) >=? maxCount)%Z then (results, h)
      else
        pushItems maxCount lineOffset columnOffset rest (results ++ [item])
          (updateDiagnosticOffset item lineOffset columnOffset h)
  end.

(** The outer loop, [for (const query of graphQueries) { ... }]. *)
Fixpoint validateQueries (maxCount : Z) (graphQueries : list Source)
    (results : list Diagnostic) (w : World)
    : Promise (list Diagnostic) * World :=
  match graphQueries with
  | [] => (Fulfilled results, w)
  | query :: rest =>
      if (Z.of_nat (length results) >=? maxCount)%Z then (Fulfilled results, w)
      else
        let lineOffset := (loc_line (locationOffset query) - 1)%Z in
        let columnOffset := (loc_column (locationOffset query) + 1)%Z in
        let graphqlTextDocument :=
          TextDocument_create "" "graphql" 1 (body query) in
        match validateOneGraphQuery graphqlTextDocument (body query) w with
        | (Fulfilled diagnostics, w1) =>
            let '(results1, h) :=
              pushItems maxCount lineOffset columnOffset diagnostics results
                (positions w1) in
            validateQueries maxCount rest results1 (set_positions h w1)
        | (Rejected, w1) => (Rejected, w1)
        | (Pending, w1) => (Pending, w1)
        end
  end.

Definition validateGraphql (textDocument : TextDocument) (maxCount : Z)
    (w : World) : Promise (list Diagnostic) * World :=
  let results : list Diagnostic := [] in
  if (maxCount <=? 0)%Z || (length diagnosticProducers =? 0)%nat then
    (Fulfilled results, w)
  else
    let w0 := log (CallPluck (uri textDocument) (getText textDocument)) w in
    match gqlPluckFromCodeStringSync (uri textDocument)
            (getText textDocument) with
    | Throw => (Rejected, w0)
    | Normal graphQueries => validateQueries maxCount graphQueries results w0
    end.

End Pipeline.

End ValidateGraphql.

Module OrgUtils.

(** ** Data

    File-system calls are taken to succeed here, and the org is kept;
    [objectInfoFiles] and [entityListFile] stand for the parsed contents of
    the folder that [objectInfoFolderPath()] names.  Module [OrgSession]
    below has the calls with a file system that fails and an org that
    changes. *)

Inductive ConnectionStatus : Type := UNKNOWN | CONNECTED | DISCONNECTED.

Global Instance ConnectionStatus_eq_dec : EqDecision ConnectionStatus.
Proof. solve_decision. Defined.

(** A [Connection] of @salesforce/core, as far as the code looks at it. *)
Record Connection : Type := mkConnection {
  getUsername : option string;
  baseUrl : string
}.

(** What the attempt to open a session gives, inside [getConnection]:
    [getDefaultUserName()] finds no user, or [AuthInfo.create] /
    [Connection.create] throws, or a connection is made. *)
Inductive ConnectAttempt : Type :=
| NoUsername
| CreateThrows
| Created (connect : Connection).

(** The promise of one network request, from its creation at line 245 to
    the [finally] callback. *)
Inductive Phase (ObjectInfoRepresentation : Type) : Type :=
| AwaitConnection
| AwaitResponse
| Stalled
| Resolved (v : option ObjectInfoRepresentation)
| Done (v : option ObjectInfoRepresentation).
Arguments AwaitConnection {ObjectInfoRepresentation}.
Arguments AwaitResponse {ObjectInfoRepresentation}.
Arguments Stalled {ObjectInfoRepresentation}.
Arguments Resolved {ObjectInfoRepresentation} v.
Arguments Done {ObjectInfoRepresentation} v.

Section Model.

(** [ObjectInfoRepresentation] is declared in [../types]. *)
Variable ObjectInfoRepresentation : Type.

Record Flight : Type := mkFlight {
  flight_name : string;
  flight_phase : Phase ObjectInfoRepresentation
}.

(** The static fields of [OrgUtils], the files, and the promises made by
    [getObjectInfo]; [objectInfoPromises] maps a name to the index of its
    promise in [flights]. *)
Record OrgState : Type := mkOrgState {
  connection : option Connection;
  connectStatus : ConnectionStatus;
  objectInfoInMemoCache : gmap string ObjectInfoRepresentation;
  objectInfoPromises : gmap string nat;
  entities : list string;
  objectInfoFiles : gmap string ObjectInfoRepresentation;
  entityListFile : option (list string);
  flights : list Flight
}.

Definition set_connection (c : option Connection) (s : OrgState) : OrgState :=
  mkOrgState c (connectStatus s) (objectInfoInMemoCache s)
    (objectInfoPromises s) (entities s) (objectInfoFiles s)
    (entityListFile s) (flights s).

Definition set_connectStatus (st : ConnectionStatus) (s : OrgState)
    : OrgState :=
  mkOrgState (connection s) st (objectInfoInMemoCache s)
    (objectInfoPromises s) (entities s) (objectInfoFiles s)
    (entityListFile s) (flights s).

Definition set_memo (m : gmap string ObjectInfoRepresentation) (s : OrgState)
    : OrgState :=
  mkOrgState (connection s) (connectStatus s) m
    (objectInfoPromises s) (entities s) (objectInfoFiles s)
    (entityListFile s) (flights s).

Definition set_promises (m : gmap string nat) (s : OrgState) : OrgState :=
  mkOrgState (connection s) (connectStatus s) (objectInfoInMemoCache s)
    m (entities s) (objectInfoFiles s) (entityListFile s) (flights s).

Definition set_entities (l : list string) (s : OrgState) : OrgState :=
  mkOrgState (connection s) (connectStatus s) (objectInfoInMemoCache s)
    (objectInfoPromises s) l (objectInfoFiles s) (entityListFile s)
    (flights s).

Definition set_files (m : gmap string ObjectInfoRepresentation)
    (s : OrgState) : OrgState :=
  mkOrgState (connection s) (connectStatus s) (objectInfoInMemoCache s)
    (objectInfoPromises s) (entities s) m (entityListFile s) (flights s).

Definition set_entityListFile (f : option (list string)) (s : OrgState)
    : OrgState :=
  mkOrgState (connection s) (connectStatus s) (objectInfoInMemoCache s)
    (objectInfoPromises s) (entities s) (objectInfoFiles s) f (flights s).

Definition set_flights (l : list Flight) (s : OrgState) : OrgState :=
  mkOrgState (connection s) (connectStatus s) (objectInfoInMemoCache s)
    (objectInfoPromises s) (entities s) (objectInfoFiles s)
    (entityListFile s) l.

Definition has_username (c : Connection) : bool :=
  match getUsername c with Some _ => true | None => false end.

(** ** [getConnection] *)

(** [this.connection], when it is defined and has a user name. *)
Definition stored_session (s : OrgState) : option Connection :=
  match connection s with
  | Some c => if has_username c then Some c else None
  | None => None
  end.

Definition getConnection (attempt : ConnectAttempt) (s : OrgState)
    : option Connection * OrgState :=
  match stored_session s with
  | Some c => (Some c, s)
  | None =>
      match attempt with
      | NoUsername => (None, s)
      | CreateThrows => (None, set_connection None s)
      | Created connect =>
          (Some connect,
           if has_username connect then set_connection (Some connect) s
           else s)
      end
  end.

(** ** [checkAuthStatus]

    [describeGlobal] is what [connection.describeGlobal()] gives, mapped to
    the names; [Throw] when the request fails.  [getEntityList] is applied to
    [this.connection!!]: with no stored connection the call throws.  The
    call runs here on its own, from its start to its end;
    [OrgSession.checkAuthStatus_resume] and [OrgSession.checkAuthStatus_listed]
    are its pieces. *)
Definition checkAuthStatus (attempt : ConnectAttempt)
    (describeGlobal : Completion (list string)) (s : OrgState)
    : Promise ConnectionStatus * OrgState :=
  match connectStatus s with
  | UNKNOWN =>
      let '(connection_, s1) := getConnection attempt s in
      match connection_ with
      | None => (Fulfilled DISCONNECTED, set_connectStatus DISCONNECTED s1)
      | Some _ =>
          let s2 := set_connectStatus CONNECTED s1 in
          match entityListFile s2 with
          | None =>
              match connection s2, describeGlobal with
              | Some _, Normal objectList =>
                  (Fulfilled CONNECTED,
                   set_entityListFile (Some objectList)
                     (set_entities objectList s2))
              | _, _ => (Rejected, s2)
              end
          | Some entityContent =>
              (Fulfilled CONNECTED, set_entities entityContent s2)
          end
      end
  | st => (Fulfilled st, s)
  end.

(** ** The caches *)
Definition fetchObjectInfoFromDisk (objectApiName : string) (s : OrgState)
    : option ObjectInfoRepresentation :=
  objectInfoFiles s !! objectApiName.

Definition getObjectInfoFromCache (objectApiName : string) (s : OrgState)
    : option ObjectInfoRepresentation * OrgState :=
  match objectInfoInMemoCache s !! objectApiName with
  | Some objectInfo => (Some objectInfo, s)
  | None =>
      match fetchObjectInfoFromDisk objectApiName s with
      | Some objectInfo =>
          (Some objectInfo,
           set_memo (<[objectApiName := objectInfo]> (objectInfoInMemoCache s))
             s)
      | None => (None, s)
      end
  end.

Definition objectInfoResponseCallback (objectApiName : string)
    (objectInfo : ObjectInfoRepresentation) (s : OrgState) : OrgState :=
  set_files (<[objectApiName := objectInfo]> (objectInfoFiles s))
    (set_memo (<[objectApiName := objectInfo]> (objectInfoInMemoCache s)) s).

(** ** [getObjectInfo], piece by piece

    The function is cut at its [await]s.  Each piece runs without
    interruption, as JavaScript runs it; other calls may run between two
    pieces. *)

(** What a call of [getObjectInfo] hands back: a promise that is settled
    already, or the promise stored in [objectInfoPromises]. *)
Inductive Answer : Type :=
| Immediate (p : Promise (option ObjectInfoRepresentation))
| InFlight (h : nat).

(** Lines 232 to 277, entered when [await OrgUtils.checkAuthStatus()] has
    given [connectStatus_].  The executor of a new promise stops at once at
    [await OrgUtils.getConnection()]. *)
Definition getObjectInfo_proceed (objectApiName : string)
    (connectStatus_ : ConnectionStatus) (s : OrgState) : Answer * OrgState :=
  if decide (connectStatus_ = CONNECTED) then
    let '(objectInfo, s1) := getObjectInfoFromCache objectApiName s in
    match objectInfo with
    | Some oi => (Immediate (Fulfilled (Some oi)), s1)
    | None =>
        match objectInfoPromises s1 !! objectApiName with
        | Some h => (InFlight h, s1)
        | None =>
            let h := length (flights s1) in
            (InFlight h,
             set_promises (<[objectApiName := h]> (objectInfoPromises s1))
               (set_flights
                  (flights s1 ++ [mkFlight objectApiName AwaitConnection])
                  s1))
        end
    end
  else (Immediate (Fulfilled None), s).

Definition set_phase (h : nat) (objectApiName : string)
    (ph : Phase ObjectInfoRepresentation) (s : OrgState) : OrgState :=
  set_flights (<[h := mkFlight objectApiName ph]> (flights s)) s.

(** Lines 250 to 256: the executor goes on with the connection it awaited.
    It sends the request, or it leaves the [try] without resolving. *)
Definition executor_resume (h : nat) (connection_ : option Connection)
    (s : OrgState) : OrgState :=
  match flights s !! h with
  | Some (mkFlight objectApiName AwaitConnection) =>
      match connection_ with
      | Some _ =>
          if bool_decide (objectApiName ∈ entities s)
          then set_phase h objectApiName AwaitResponse s
          else set_phase h objectApiName Stalled s
      | None => set_phase h objectApiName Stalled s
      end
  | _ => s
  end.

(** Lines 254 to 268: the request has settled ([Throw]: it was rejected). *)
Definition executor_respond (h : nat)
    (response : Completion (option ObjectInfoRepresentation)) (s : OrgState)
    : OrgState :=
  match flights s !! h with
  | Some (mkFlight objectApiName AwaitResponse) =>
      match response with
      | Normal (Some objectInfo) =>
          set_phase h objectApiName (Resolved (Some objectInfo))
            (objectInfoResponseCallback objectApiName objectInfo s)
      | Normal None => set_phase h objectApiName (Resolved None) s
      | Throw => set_phase h objectApiName (Resolved None) s
      end
  | _ => s
  end.

(** The value the promise is resolved with. *)
Definition response_value
    (response : Completion (option ObjectInfoRepresentation))
    : option ObjectInfoRepresentation :=
  match response with
  | Normal v => v
  | Throw => None
  end.

(** Lines 269 to 271: the [finally] callback. *)
Definition executor_finally (h : nat) (s : OrgState) : OrgState :=
  match flights s !! h with
  | Some (mkFlight objectApiName (Resolved v)) =>
      set_promises (delete objectApiName (objectInfoPromises s))
        (set_phase h objectApiName (Done v) s)
  | _ => s
  end.

(** The state of the promise [objectInfoPromises] stores for flight [h]. *)
Definition flight_outcome (h : nat) (s : OrgState)
    : Promise (option ObjectInfoRepresentation) :=
  match flights s !! h with
  | Some (mkFlight _ (Done v)) => Fulfilled v
  | _ => Pending
  end.

(** ** Interleavings

    One event per piece.  The value an [await] gives back is part of the
    event, so that every order in which calls of [getObjectInfo] can run is a
    list of events.  A change of org ([clearCache]) is not among the events:
    the lists describe the calls made during one session; the events of
    [OrgSession] include it. *)
Inductive Event : Type :=
| EvAuth (attempt : ConnectAttempt) (describeGlobal : Completion (list string))
| EvProceed (objectApiName : string) (connectStatus_ : ConnectionStatus)
| EvGetConnection (attempt : ConnectAttempt)
| EvResume (h : nat) (connection_ : option Connection)
| EvRespond (h : nat) (response : Completion (option ObjectInfoRepresentation))
| EvFinally (h : nat).

Definition step (s : OrgState) (e : Event) : OrgState :=
  match e with
  | EvAuth attempt describeGlobal =>
      snd (checkAuthStatus attempt describeGlobal s)
  | EvProceed objectApiName connectStatus_ =>
      snd (getObjectInfo_proceed objectApiName connectStatus_ s)
  | EvGetConnection attempt => snd (getConnection attempt s)
  | EvResume h connection_ => executor_resume h connection_ s
  | EvRespond h response => executor_respond h response s
  | EvFinally h => executor_finally h s
  end.

Definition run (es : list Event) (s : OrgState) : OrgState :=
  foldl step s es.

(** ** [getObjectInfo], one call on its own

    What the outside answers during the call. *)
Record Network : Type := mkNetwork {
  auth_attempt : ConnectAttempt;
  describeGlobal : Completion (list string);
  executor_attempt : ConnectAttempt;
  response : Completion (option ObjectInfoRepresentation)
}.

(** The call up to the point where it waits for the request. *)
Definition getObjectInfo_start (objectApiName : string) (net : Network)
    (s : OrgState) : Promise Answer * OrgState :=
  match checkAuthStatus (auth_attempt net) (describeGlobal net) s with
  | (Fulfilled connectStatus_, s1) =>
      match getObjectInfo_proceed objectApiName connectStatus_ s1 with
      | (Immediate p, s2) => (Fulfilled (Immediate p), s2)
      | (InFlight h, s2) =>
          match flights s2 !! h with
          | Some (mkFlight _ AwaitConnection) =>
              let '(connection_, s3) :=
                getConnection (executor_attempt net) s2 in
              (Fulfilled (InFlight h), executor_resume h connection_ s3)
          | _ => (Fulfilled (InFlight h), s2)
          end
      end
  | (Rejected, s1) => (Rejected, s1)
  | (Pending, s1) => (Pending, s1)
  end.

(** The whole call, with the end of the request it waits for. *)
Definition getObjectInfo (objectApiName : string) (net : Network)
    (s : OrgState) : Promise (option ObjectInfoRepresentation) * OrgState :=
  match getObjectInfo_start objectApiName net s with
  | (Fulfilled (Immediate p), s1) => (p, s1)
  | (Fulfilled (InFlight h), s1) =>
      let s2 := executor_finally h (executor_respond h (response net) s1) in
      (flight_outcome h s2, s2)
  | (Rejected, s1) => (Rejected, s1)
  | (Pending, s1) => (Pending, s1)
  end.

End Model.

Arguments mkFlight {ObjectInfoRepresentation} _ _.
Arguments flight_name {ObjectInfoRepresentation} _.
Arguments flight_phase {ObjectInfoRepresentation} _.
Arguments mkOrgState {ObjectInfoRepresentation} _ _ _ _ _ _ _ _.
Arguments connection {ObjectInfoRepresentation} _.
Arguments connectStatus {ObjectInfoRepresentation} _.
Arguments objectInfoInMemoCache {ObjectInfoRepresentation} _.
Arguments objectInfoPromises {ObjectInfoRepresentation} _.
Arguments entities {ObjectInfoRepresentation} _.
Arguments objectInfoFiles {ObjectInfoRepresentation} _.
Arguments entityListFile {ObjectInfoRepresentation} _.
Arguments flights {ObjectInfoRepresentation} _.
Arguments getConnection {ObjectInfoRepresentation} _ _.
Arguments checkAuthStatus {ObjectInfoRepresentation} _ _ _.
Arguments getObjectInfoFromCache {ObjectInfoRepresentation} _ _.
Arguments fetchObjectInfoFromDisk {ObjectInfoRepresentation} _ _.
Arguments objectInfoResponseCallback {ObjectInfoRepresentation} _ _ _.
Arguments Immediate {ObjectInfoRepresentation} _.
Arguments InFlight {ObjectInfoRepresentation} _.
Arguments getObjectInfo_proceed {ObjectInfoRepresentation} _ _ _.
Arguments executor_resume {ObjectInfoRepresentation} _ _ _.
Arguments executor_respond {ObjectInfoRepresentation} _ _ _.
Arguments executor_finally {ObjectInfoRepresentation} _ _.
Arguments flight_outcome {ObjectInfoRepresentation} _ _.
Arguments response_value {ObjectInfoRepresentation} _.
Arguments EvAuth {ObjectInfoRepresentation} _ _.
Arguments EvProceed {ObjectInfoRepresentation} _ _.
Arguments EvGetConnection {ObjectInfoRepresentation} _.
Arguments EvResume {ObjectInfoRepresentation} _ _.
Arguments EvRespond {ObjectInfoRepresentation} _ _.
Arguments EvFinally {ObjectInfoRepresentation} _.
Arguments step {ObjectInfoRepresentation} _ _.
Arguments run {ObjectInfoRepresentation} _ _.
Arguments mkNetwork {ObjectInfoRepresentation} _ _ _ _.
Arguments auth_attempt {ObjectInfoRepresentation} _.
Arguments describeGlobal {ObjectInfoRepresentation} _.
Arguments executor_attempt {ObjectInfoRepresentation} _.
Arguments response {ObjectInfoRepresentation} _.
Arguments getObjectInfo_start {ObjectInfoRepresentation} _ _ _.
Arguments getObjectInfo {ObjectInfoRepresentation} _ _ _.

End OrgUtils.

(** * What the specification says, as definitions of its own *)

Module Spec.
Import ValidateGraphql.

(** Position Remapper, for one endpoint: the column offset is added on the
    fragment's first line only, the line offset always. *)
Definition remapped_endpoint (lineOffset columnOffset : Z) (p : Position)
    : Position :=
  mkPosition (line p + lineOffset)
    (if (line p =? 0)%Z then character p + columnOffset else character p)%Z.

(** The LocationOffset of a fragment: the line and the column, counted
    from 0, of its first character in the document, which the remapper
    receives as [lineOffset] and [columnOffset].  The [locationOffset] of
    graphql-tag-pluck counts the lines from 1 and gives the column of the
    backtick that opens the literal. *)
Definition LocationOffset (query : Source) : Location :=
  mkLocation (loc_line (locationOffset query) - 1)
    (loc_column (locationOffset query) + 1).

(** A rule settles when the promise it returns never stays pending. *)
Definition settles {ASTNode : Type} (producer : DiagnosticProducer ASTNode)
    : Prop :=
  ∀ textDocument graphqlAstNode h,
    fst (validateDocument producer textDocument graphqlAstNode h)
    ≠ Returns Pending.

Section Order.

Variable ASTNode : Type.
Variable parse : string → Completion ASTNode.
Variable diagnosticProducers : list (DiagnosticProducer ASTNode).

(** The findings of one fragment, as the orchestrator receives them. *)
Definition findings_of (textDocument : TextDocument) (graphql : string)
    (w : World) : list Diagnostic * World :=
  match validateOneGraphQuery ASTNode parse diagnosticProducers textDocument
          graphql w with
  | (Fulfilled diagnostics, w1) => (diagnostics, w1)
  | (_, w1) => ([], w1)
  end.

(** Every finding of every fragment, remapped, with no cap: fragments in
    the order of discovery, and inside a fragment the order in which the
    findings were received. *)
Fixpoint diagnostics_in_discovery_order (graphQueries : list Source)
    (w : World) : list Diagnostic :=
  match graphQueries with
  | [] => []
  | query :: rest =>
      let '(diagnostics, w1) :=
        findings_of (TextDocument_create "" "graphql" 1 (body query))
          (body query) w in
      let h :=
        foldl (λ h item,
                 updateDiagnosticOffset item
                   (loc_line (locationOffset query) - 1)%Z
                   (loc_column (locationOffset query) + 1)%Z h)
              (positions w1) diagnostics in
      diagnostics ++ diagnostics_in_discovery_order rest (set_positions h w1)
  end.

End Order.

End Spec.

(** * Concrete documents, rules and sessions *)

Module Examples.
Import ValidateGraphql.

(** A parser that refuses one text. *)
Definition ex_parse (graphql : string) : Completion unit :=
  if String.eqb graphql "query {" then Throw else Normal tt.

(** An extractor: it throws on a text that is not JavaScript, finds two
    literals in one document, one in another, and none elsewhere. *)
Definition ex_good_source : Source :=
  mkSource "query { uiapi { query { Account } } }" "" (mkLocation 5 10).

Definition ex_bad_source : Source :=
  mkSource "query {" "" (mkLocation 9 4).

(** A literal whose first character is at line 5, column 10 of the
    document, counted from 0: its backtick is at column 9 of the sixth
    line. *)
Definition ex_source_at_5_10 : Source :=
  mkSource "query { uiapi { query { Account } } }" "" (mkLocation 6 9).

Definition ex_pluck (file_uri text : string) : Completion (list Source) :=
  if String.eqb text "const = ;" then Throw
  else if String.eqb text "two literals" then
    Normal [ex_good_source; ex_bad_source]
  else if String.eqb text "bad then good" then
    Normal [ex_bad_source; ex_good_source]
  else if String.eqb text "one literal" then Normal [ex_good_source]
  else Normal [].

(** A rule that reports one finding at (0,3)-(0,8), in two new objects. *)
Definition ex_first_line_rule : DiagnosticProducer unit :=
  mkProducer (λ _ _ h,
    let r := size h in
    (Returns (Fulfilled
       [mkDiagnostic (mkRange r (S r)) 2 "misspelled field" "misspelled-uiapi"]),
     <[S r := mkPosition 0 8]> (<[r := mkPosition 0 3]> h))).

(** A rule that reports two findings, the first one on the second line. *)
Definition ex_two_findings_rule : DiagnosticProducer unit :=
  mkProducer (λ _ _ h,
    let r := size h in
    (Returns (Fulfilled
       [mkDiagnostic (mkRange r (S r)) 2 "first" "rule-b";
        mkDiagnostic (mkRange (S (S r)) (S (S (S r)))) 2 "second" "rule-b"]),
     <[S (S (S r)) := mkPosition 2 9]>
       (<[S (S r) := mkPosition 2 1]>
          (<[S r := mkPosition 1 7]> (<[r := mkPosition 1 2]> h))))).

(** A rule whose promise is rejected, and one that throws at the call. *)
Definition ex_rejecting_rule : DiagnosticProducer unit :=
  mkProducer (λ _ _ h, (Returns Rejected, h)).

Definition ex_throwing_rule : DiagnosticProducer unit :=
  mkProducer (λ _ _ h, (Throws, h)).

(** A rule whose promise never settles. *)
Definition ex_pending_rule : DiagnosticProducer unit :=
  mkProducer (λ _ _ h, (Returns Pending, h)).

(** A diagnostic whose range uses one [Position] object for both ends. *)
Definition ex_shared_endpoint : Diagnostic :=
  mkDiagnostic (mkRange 0 0) 2 "empty range" "rule-c".

Definition ex_world : World := mkWorld ∅ [].

Definition ex_document (text : string) : TextDocument :=
  mkTextDocument "file:///app.js" "javascript" 1 text.

(** The ranges of diagnostics, read from the store. *)
Definition ranges_of (ds : list Diagnostic) (h : heap)
    : list (option Position * option Position) :=
  map (λ d, (h !! start (range d), h !! end_ (range d))) ds.

Definition run_validateGraphql (producers : list (DiagnosticProducer unit))
    (text : string) (maxCount : Z) : Promise (list Diagnostic) * World :=
  validateGraphql unit ex_parse ex_pluck producers (ex_document text)
    maxCount ex_world.

End Examples.

Module OrgExamples.
Import OrgUtils.

Definition ex_connection : Connection :=
  mkConnection (Some "user@example.com") "https://example.my.salesforce.com".

(** The state of a fresh process: nothing known, nothing cached. *)
Definition ex_init : OrgState string :=
  mkOrgState None UNKNOWN ∅ ∅ [] ∅ None [].

(** No session can be opened. *)
Definition ex_net_no_session : Network string :=
  mkNetwork CreateThrows Throw CreateThrows Throw.

(** A session is opened and the entities are listed; the request for the
    object is rejected. *)
Definition ex_net_request_fails
    : Network string :=
  mkNetwork (Created ex_connection) (Normal ["Account"; "Contact"])
    NoUsername Throw.

(** The same, with the list of entities failing. *)
Definition ex_net_list_fails : Network string :=
  mkNetwork (Created ex_connection) Throw NoUsername Throw.

(** Two calls for [Account]: the first one goes as far as sending its
    request, then the second one runs. *)
Definition ex_two_calls : list (Event string) :=
  [EvAuth (Created ex_connection) (Normal ["Account"; "Contact"]);
   EvProceed "Account" CONNECTED;
   EvGetConnection NoUsername;
   EvResume 0 (Some ex_connection);
   EvAuth NoUsername Throw;
   EvProceed "Account" CONNECTED].

End OrgExamples.

(** * More of the code *)

(** ** The order of positions *)

Module PositionOrder.
Import ValidateGraphql.

(** Positions are ordered by line, then by character. *)
Definition Position_lt (p q : Position) : Prop :=
  (line p < line q)%Z ∨ (line p = line q ∧ (character p < character q)%Z).

Definition Position_le (p q : Position) : Prop :=
  Position_lt p q ∨ p = q.

End PositionOrder.

(** ** Rules that do not throw at the call *)

Module RuleCalls.
Import ValidateGraphql.

Definition never_throws {ASTNode : Type}
    (producer : DiagnosticProducer ASTNode) : Prop :=
  ∀ textDocument graphqlAstNode h,
    fst (validateDocument producer textDocument graphqlAstNode h) ≠ Throws.

(** The calls of the rules number [index] to [index + n - 1]. *)
Definition producer_calls (graphql : string) (index n : nat) : list Call :=
  (λ i, CallProducer i graphql) <$> seq index n.

End RuleCalls.

(** ** [OrgUtils.clearCache] and [OrgUtils.onAuthOrgChanged] *)

Module OrgReset.
Import OrgUtils.

Section Reset.

Variable ObjectInfoRepresentation : Type.

(** [orgName] is not a field of [OrgState]: the value of the test
    [this.orgName.length > 0] is the argument [orgNameKnown].  When it holds,
    the folder of the org is removed and [orgName] becomes empty, so that
    [objectInfoFolderPath()] names another folder from then on: what that
    folder holds is the argument [folderAfter].  The promises themselves
    ([flights]) are not touched: only the table is cleared. *)
Definition clearCache (orgNameKnown : bool)
    (folderAfter :
       gmap string ObjectInfoRepresentation * option (list string))
    (s : OrgState ObjectInfoRepresentation)
    : OrgState ObjectInfoRepresentation :=
  let s1 := set_entities _ [] s in
  let s2 := set_memo _ ∅ s1 in
  let s3 := set_promises _ ∅ s2 in
  let s4 := set_connection _ None s3 in
  if orgNameKnown
  then set_entityListFile _ (snd folderAfter) (set_files _ (fst folderAfter) s4)
  else s4.

Definition onAuthOrgChanged (orgNameKnown : bool)
    (folderAfter :
       gmap string ObjectInfoRepresentation * option (list string))
    (s : OrgState ObjectInfoRepresentation)
    : OrgState ObjectInfoRepresentation :=
  clearCache orgNameKnown folderAfter (set_connectStatus _ UNKNOWN s).

End Reset.

Arguments clearCache {ObjectInfoRepresentation} _ _ _.
Arguments onAuthOrgChanged {ObjectInfoRepresentation} _ _ _.

End OrgReset.

(** ** [OrgUtils] with a file system that can fail and an org that can change

    The calls of [OrgUtils] once more, now with
      - the file system: every call of [objectInfoFolderPath], [readFileSync]
        with [JSON.parse], [unlinkSync] and [writeFileSync] can throw;
      - [this.orgName]: [getDefaultOrg] assigns it and [clearCache] empties
        it, and [objectInfoFolderPath()] names the folder of that org;
      - [checkAuthStatus] cut at its [await]s like [getObjectInfo];
      - [onAuthOrgChanged], which the watcher of the configuration folders
        runs between any two pieces. *)

Module OrgSession.
Import OrgUtils OrgReset.

(** What the file system does during one piece of code: [folder_ok] when
    [objectInfoFolderPath()] returns ([WorkspaceUtils.getWorkspaceDir] or
    [fs.mkdirSync] throws otherwise), [read_ok] when [fs.readFileSync] and
    [JSON.parse] return, [unlink_ok] for [fs.unlinkSync] and [write_ok] for
    [fs.writeFileSync]. *)
Record FileSystem : Type := mkFileSystem {
  folder_ok : bool;
  read_ok : bool;
  unlink_ok : bool;
  write_ok : bool
}.

Section Model.

Variable ObjectInfoRepresentation : Type.

Local Abbreviation State := (OrgState ObjectInfoRepresentation).

(** The contents of a folder of object infos: the files of the objects and
    the file of the list of entities. *)
Definition Folder : Type :=
  gmap string ObjectInfoRepresentation * option (list string).

Definition set_folder (folder : Folder) (s : State) : State :=
  set_entityListFile _ (snd folder) (set_files _ (fst folder) s).

(** ** [getDefaultOrg] and [getConnection]

    [getDefaultOrg] assigns [this.orgName] (line 80) when the configuration
    names an org.  [orgName] is a part of the path [objectInfoFolderPath()]
    builds, so that [objectInfoFiles] and [entityListFile] are from then on
    those of the folder of this org: [org], when the name changes. *)
Definition getDefaultOrg (org : option Folder) (s : State) : State :=
  match org with
  | Some folder => set_folder folder s
  | None => s
  end.

(** [getDefaultUserName] calls [getDefaultOrg] and catches what it throws;
    [attempt] is what the rest of the [try] gives. *)
Definition getConnection (org : option Folder) (attempt : ConnectAttempt)
    (s : State) : option Connection * State :=
  match stored_session _ s with
  | Some c => (Some c, s)
  | None =>
      let s1 := getDefaultOrg org s in
      match attempt with
      | NoUsername => (None, s1)
      | CreateThrows => (None, set_connection _ None s1)
      | Created connect =>
          (Some connect,
           if has_username connect then set_connection _ (Some connect) s1
           else s1)
      end
  end.

(** ** [checkAuthStatus], piece by piece *)

(** What the piece after [await this.getConnection()] ends with: the
    promise of [checkAuthStatus] is settled, or the piece waits for
    [getEntityList]. *)
Inductive AuthAnswer : Type :=
| AuthSettled (p : Promise ConnectionStatus)
| AuthAwaitList.

(** Lines 120 to 138, up to the [await] of line 130.  The status is set
    before the folder is looked at.  [getEntityList(this.connection!!)] with
    no stored connection calls [describeGlobal] on [undefined]: its promise
    is rejected. *)
Definition checkAuthStatus_resume (fs : FileSystem)
    (connection_ : option Connection) (s : State) : AuthAnswer * State :=
  match connection_ with
  | None =>
      (AuthSettled (Fulfilled DISCONNECTED),
       set_connectStatus _ DISCONNECTED s)
  | Some _ =>
      let s1 := set_connectStatus _ CONNECTED s in
      if folder_ok fs then
        match entityListFile s1 with
        | None =>
            match connection s1 with
            | Some _ => (AuthAwaitList, s1)
            | None => (AuthSettled Rejected, s1)
            end
        | Some entityContent =>
            if read_ok fs then
              (AuthSettled (Fulfilled CONNECTED),
               set_entities _ entityContent s1)
            else (AuthSettled Rejected, s1)
        end
      else (AuthSettled Rejected, s1)
  end.

(** Lines 130 to 141, after the [await]: [describeGlobal] has settled.
    The function returns the status it reads at that time. *)
Definition checkAuthStatus_listed (fs : FileSystem)
    (describeGlobal : Completion (list string)) (s : State)
    : Promise ConnectionStatus * State :=
  match describeGlobal with
  | Normal objectList =>
      let s1 := set_entities _ objectList s in
      if write_ok fs then
        (Fulfilled (connectStatus s1),
         set_entityListFile _ (Some objectList) s1)
      else (Rejected, s1)
  | Throw => (Rejected, s)
  end.

(** ** The caches *)

Definition fetchObjectInfoFromDisk (fs : FileSystem) (objectApiName : string)
    (s : State) : Completion (option ObjectInfoRepresentation) :=
  if folder_ok fs then
    match objectInfoFiles s !! objectApiName with
    | None => Normal None
    | Some objectInfo => if read_ok fs then Normal (Some objectInfo) else Throw
    end
  else Throw.

Definition getObjectInfoFromCache (fs : FileSystem) (objectApiName : string)
    (s : State) : Completion (option ObjectInfoRepresentation) * State :=
  match objectInfoInMemoCache s !! objectApiName with
  | Some objectInfo => (Normal (Some objectInfo), s)
  | None =>
      match fetchObjectInfoFromDisk fs objectApiName s with
      | Normal (Some objectInfo) =>
          (Normal (Some objectInfo),
           set_memo _
             (<[objectApiName := objectInfo]> (objectInfoInMemoCache s)) s)
      | Normal None => (Normal None, s)
      | Throw => (Throw, s)
      end
  end.

(** The memory cache is filled first; the file is removed, then written. *)
Definition objectInfoResponseCallback (fs : FileSystem)
    (objectApiName : string) (objectInfo : ObjectInfoRepresentation)
    (s : State) : Completion unit * State :=
  let s1 :=
    set_memo _ (<[objectApiName := objectInfo]> (objectInfoInMemoCache s)) s in
  if folder_ok fs then
    match objectInfoFiles s1 !! objectApiName with
    | Some _ =>
        if unlink_ok fs then
          let s2 := set_files _ (delete objectApiName (objectInfoFiles s1)) s1 in
          if write_ok fs then
            (Normal tt,
             set_files _ (<[objectApiName := objectInfo]> (objectInfoFiles s2))
               s2)
          else (Throw, s2)
        else (Throw, s1)
    | None =>
        if write_ok fs then
          (Normal tt,
           set_files _ (<[objectApiName := objectInfo]> (objectInfoFiles s1))
             s1)
        else (Throw, s1)
    end
  else (Throw, s1).

(** The file system works during a piece of code. *)
Definition works (fs : FileSystem) : Prop :=
  folder_ok fs = true ∧ read_ok fs = true ∧ unlink_ok fs = true ∧
  write_ok fs = true.

(** ** [getObjectInfo], piece by piece *)

(** Lines 232 to 277.  The lookup in the caches is outside any [try]: when
    it throws, the promise of [getObjectInfo] is rejected. *)
Definition getObjectInfo_proceed (fs : FileSystem) (objectApiName : string)
    (connectStatus_ : ConnectionStatus) (s : State)
    : Answer ObjectInfoRepresentation * State :=
  if decide (connectStatus_ = CONNECTED) then
    match getObjectInfoFromCache fs objectApiName s with
    | (Throw, s1) => (Immediate Rejected, s1)
    | (Normal (Some oi), s1) => (Immediate (Fulfilled (Some oi)), s1)
    | (Normal None, s1) =>
        match objectInfoPromises s1 !! objectApiName with
        | Some h => (InFlight h, s1)
        | None =>
            let h := length (flights s1) in
            (InFlight h,
             set_promises _ (<[objectApiName := h]> (objectInfoPromises s1))
               (set_flights _
                  (flights s1 ++ [mkFlight objectApiName AwaitConnection])
                  s1))
        end
    end
  else (Immediate (Fulfilled None), s).

(** Lines 254 to 268: the request has settled.  The callback runs inside
    the [try]: when it throws, the promise is resolved with [undefined]. *)
Definition executor_respond (fs : FileSystem) (h : nat)
    (response : Completion (option ObjectInfoRepresentation)) (s : State)
    : State :=
  match flights s !! h with
  | Some (mkFlight objectApiName AwaitResponse) =>
      match response with
      | Normal (Some objectInfo) =>
          match objectInfoResponseCallback fs objectApiName objectInfo s with
          | (Normal _, s1) =>
              set_phase _ h objectApiName (Resolved (Some objectInfo)) s1
          | (Throw, s1) => set_phase _ h objectApiName (Resolved None) s1
          end
      | Normal None => set_phase _ h objectApiName (Resolved None) s
      | Throw => set_phase _ h objectApiName (Resolved None) s
      end
  | _ => s
  end.

(** ** Interleavings

    One event per piece of [checkAuthStatus], [getConnection] and
    [getObjectInfo], and one for [onAuthOrgChanged].  What an [await] gives
    back, and what the file system does, is part of the event. *)
Inductive Event : Type :=
| EvGetDefaultOrg (org : Folder)
| EvGetConnection (attempt : ConnectAttempt)
| EvAuthResume (fs : FileSystem) (connection_ : option Connection)
| EvAuthListed (fs : FileSystem) (describeGlobal : Completion (list string))
| EvProceed (fs : FileSystem) (objectApiName : string)
    (connectStatus_ : ConnectionStatus)
| EvResume (h : nat) (connection_ : option Connection)
| EvRespond (fs : FileSystem) (h : nat)
    (response : Completion (option ObjectInfoRepresentation))
| EvFinally (h : nat)
| EvOrgChanged (orgNameKnown : bool) (folderAfter : Folder).

Definition step (s : State) (e : Event) : State :=
  match e with
  | EvGetDefaultOrg org => getDefaultOrg (Some org) s
  | EvGetConnection attempt => snd (getConnection None attempt s)
  | EvAuthResume fs connection_ =>
      snd (checkAuthStatus_resume fs connection_ s)
  | EvAuthListed fs describeGlobal =>
      snd (checkAuthStatus_listed fs describeGlobal s)
  | EvProceed fs objectApiName connectStatus_ =>
      snd (getObjectInfo_proceed fs objectApiName connectStatus_ s)
  | EvResume h connection_ => executor_resume h connection_ s
  | EvRespond fs h response => executor_respond fs h response s
  | EvFinally h => executor_finally h s
  | EvOrgChanged orgNameKnown folderAfter =>
      onAuthOrgChanged orgNameKnown folderAfter s
  end.

Definition run (es : list Event) (s : State) : State := foldl step s es.

(** A promise of [getObjectInfo] that has code left to run: its executor
    waits for the connection or for the response, or its [finally] callback
    has not run.  A promise whose executor sends no request has none. *)
Definition running (ph : Phase ObjectInfoRepresentation) : bool :=
  match ph with
  | AwaitConnection | AwaitResponse | Resolved _ => true
  | Stalled | Done _ => false
  end.

Definition waiting (ph : Phase ObjectInfoRepresentation) : bool :=
  match ph with
  | AwaitConnection | AwaitResponse => true
  | _ => false
  end.

(** No promise of [getObjectInfo] has code left to run. *)
Definition quiet (s : State) : bool :=
  forallb (λ f, negb (running (flight_phase f))) (flights s).

(** The events that change the org: the folder is another one afterwards. *)
Definition changes_org (e : Event) : bool :=
  match e with
  | EvGetDefaultOrg _ | EvOrgChanged _ _ => true
  | _ => false
  end.

(** The org is kept while promises run: every change of org happens in a
    state where no promise of [getObjectInfo] has code left to run. *)
Fixpoint org_kept (es : list Event) (s : State) : bool :=
  match es with
  | [] => true
  | e :: es' =>
      (if changes_org e then quiet s else true) && org_kept es' (step s e)
  end.

(** The invariant of the table of promises. *)
Record SingleFlight (s : State) : Prop := mkSingleFlight {
  sf_registered : ∀ h f,
    flights s !! h = Some f → running (flight_phase f) = true →
    objectInfoPromises s !! flight_name f = Some h;
  sf_uncached : ∀ h f,
    flights s !! h = Some f → waiting (flight_phase f) = true →
    objectInfoInMemoCache s !! flight_name f = None ∧
    objectInfoFiles s !! flight_name f = None
}.

(** ** One call on its own

    What the outside answers during one call of [getObjectInfo] that no
    other call and no change of org interrupts. *)
Record Outside : Type := mkOutside {
  auth_org : option Folder;
  auth_attempt : ConnectAttempt;
  auth_fs : FileSystem;
  describeGlobal : Completion (list string);
  lookup_fs : FileSystem;
  executor_org : option Folder;
  executor_attempt : ConnectAttempt;
  response : Completion (option ObjectInfoRepresentation);
  callback_fs : FileSystem
}.

Definition checkAuthStatus (out : Outside) (s : State)
    : Promise ConnectionStatus * State :=
  match connectStatus s with
  | UNKNOWN =>
      let '(connection_, s1) :=
        getConnection (auth_org out) (auth_attempt out) s in
      match checkAuthStatus_resume (auth_fs out) connection_ s1 with
      | (AuthSettled p, s2) => (p, s2)
      | (AuthAwaitList, s2) =>
          checkAuthStatus_listed (auth_fs out) (describeGlobal out) s2
      end
  | st => (Fulfilled st, s)
  end.

(** The call up to the point where it waits for the request. *)
Definition getObjectInfo_start (objectApiName : string) (out : Outside)
    (s : State) : Promise (Answer ObjectInfoRepresentation) * State :=
  match checkAuthStatus out s with
  | (Fulfilled connectStatus_, s1) =>
      match getObjectInfo_proceed (lookup_fs out) objectApiName
              connectStatus_ s1 with
      | (Immediate p, s2) => (Fulfilled (Immediate p), s2)
      | (InFlight h, s2) =>
          match flights s2 !! h with
          | Some (mkFlight _ AwaitConnection) =>
              let '(connection_, s3) :=
                getConnection (executor_org out) (executor_attempt out) s2 in
              (Fulfilled (InFlight h), executor_resume h connection_ s3)
          | _ => (Fulfilled (InFlight h), s2)
          end
      end
  | (Rejected, s1) => (Rejected, s1)
  | (Pending, s1) => (Pending, s1)
  end.

(** The whole call, with the end of the request it waits for. *)
Definition getObjectInfo (objectApiName : string) (out : Outside) (s : State)
    : Promise (option ObjectInfoRepresentation) * State :=
  match getObjectInfo_start objectApiName out s with
  | (Fulfilled (Immediate p), s1) => (p, s1)
  | (Fulfilled (InFlight h), s1) =>
      let s2 :=
        executor_finally h
          (executor_respond (callback_fs out) h (response out) s1) in
      (flight_outcome h s2, s2)
  | (Rejected, s1) => (Rejected, s1)
  | (Pending, s1) => (Pending, s1)
  end.

End Model.

Arguments set_folder {ObjectInfoRepresentation} _ _.
Arguments getDefaultOrg {ObjectInfoRepresentation} _ _.
Arguments getConnection {ObjectInfoRepresentation} _ _ _.
Arguments checkAuthStatus_resume {ObjectInfoRepresentation} _ _ _.
Arguments checkAuthStatus_listed {ObjectInfoRepresentation} _ _ _.
Arguments fetchObjectInfoFromDisk {ObjectInfoRepresentation} _ _ _.
Arguments getObjectInfoFromCache {ObjectInfoRepresentation} _ _ _.
Arguments objectInfoResponseCallback {ObjectInfoRepresentation} _ _ _ _.
Arguments getObjectInfo_proceed {ObjectInfoRepresentation} _ _ _ _.
Arguments executor_respond {ObjectInfoRepresentation} _ _ _ _.
Arguments EvGetDefaultOrg {ObjectInfoRepresentation} _.
Arguments EvGetConnection {ObjectInfoRepresentation} _.
Arguments EvAuthResume {ObjectInfoRepresentation} _ _.
Arguments EvAuthListed {ObjectInfoRepresentation} _ _.
Arguments EvProceed {ObjectInfoRepresentation} _ _ _.
Arguments EvResume {ObjectInfoRepresentation} _ _.
Arguments EvRespond {ObjectInfoRepresentation} _ _ _.
Arguments EvFinally {ObjectInfoRepresentation} _.
Arguments EvOrgChanged {ObjectInfoRepresentation} _ _.
Arguments step {ObjectInfoRepresentation} _ _.
Arguments run {ObjectInfoRepresentation} _ _.
Arguments running {ObjectInfoRepresentation} _.
Arguments waiting {ObjectInfoRepresentation} _.
Arguments quiet {ObjectInfoRepresentation} _.
Arguments changes_org {ObjectInfoRepresentation} _.
Arguments org_kept {ObjectInfoRepresentation} _ _.
Arguments SingleFlight {ObjectInfoRepresentation} _.
Arguments mkOutside {ObjectInfoRepresentation} _ _ _ _ _ _ _ _ _.
Arguments auth_org {ObjectInfoRepresentation} _.
Arguments auth_attempt {ObjectInfoRepresentation} _.
Arguments auth_fs {ObjectInfoRepresentation} _.
Arguments describeGlobal {ObjectInfoRepresentation} _.
Arguments lookup_fs {ObjectInfoRepresentation} _.
Arguments executor_org {ObjectInfoRepresentation} _.
Arguments executor_attempt {ObjectInfoRepresentation} _.
Arguments response {ObjectInfoRepresentation} _.
Arguments callback_fs {ObjectInfoRepresentation} _.
Arguments checkAuthStatus {ObjectInfoRepresentation} _ _.
Arguments getObjectInfo_start {ObjectInfoRepresentation} _ _ _.
Arguments getObjectInfo {ObjectInfoRepresentation} _ _ _.

End OrgSession.

(** ** Sessions with a failing file system and a changing org *)

Module SessionExamples.
Import OrgUtils OrgExamples OrgSession.

Definition ex_fs_ok : FileSystem := mkFileSystem true true true true.

Definition ex_fs_no_folder : FileSystem := mkFileSystem false true true true.

Definition ex_fs_no_read : FileSystem := mkFileSystem true false true true.

Definition ex_fs_no_write : FileSystem := mkFileSystem true true true false.

(** The folder of an org that has not been used yet. *)
Definition ex_org_folder : Folder string := (∅, None).

(** A folder with the file of [Account] and the list of entities. *)
Definition ex_used_folder : Folder string :=
  ({["Account" := "Account: Name, Phone"]}, Some ["Account"; "Contact"]).

(** No session can be opened. *)
Definition ex_out_no_session : Outside string :=
  mkOutside None CreateThrows ex_fs_ok Throw ex_fs_ok None CreateThrows Throw
    ex_fs_ok.

(** A session is opened and the entities are listed; the request for the
    object is rejected. *)
Definition ex_out_request_fails : Outside string :=
  mkOutside (Some ex_org_folder) (Created ex_connection) ex_fs_ok
    (Normal ["Account"; "Contact"]) ex_fs_ok None NoUsername Throw ex_fs_ok.

(** A session is opened, but [describeGlobal] fails. *)
Definition ex_out_list_fails : Outside string :=
  mkOutside (Some ex_org_folder) (Created ex_connection) ex_fs_ok Throw
    ex_fs_ok None NoUsername Throw ex_fs_ok.

(** A session is opened and the entities are listed, but the list cannot
    be written. *)
Definition ex_out_list_not_written : Outside string :=
  mkOutside (Some ex_org_folder) (Created ex_connection) ex_fs_no_write
    (Normal ["Account"; "Contact"]) ex_fs_ok None NoUsername Throw ex_fs_ok.

(** Everything answers, but the file of the object cannot be written. *)
Definition ex_out_object_not_written : Outside string :=
  mkOutside (Some ex_org_folder) (Created ex_connection) ex_fs_ok
    (Normal ["Account"; "Contact"]) ex_fs_ok None NoUsername
    (Normal (Some "Account: Name, Phone")) ex_fs_no_write.

(** The folder of the org holds the files of an earlier session, and the
    file of the object cannot be read. *)
Definition ex_out_object_not_read : Outside string :=
  mkOutside (Some ex_used_folder) (Created ex_connection) ex_fs_ok Throw
    ex_fs_no_read None NoUsername Throw ex_fs_ok.

(** A call of [getObjectInfo "Account"] in a fresh process, as far as
    sending its request ([first] is the index of its promise). *)
Definition ex_call_sends_request (first : nat) : list (Event string) :=
  [EvGetDefaultOrg ex_org_folder;
   EvGetConnection (Created ex_connection);
   EvAuthResume ex_fs_ok (Some ex_connection);
   EvAuthListed ex_fs_ok (Normal ["Account"; "Contact"]);
   EvProceed ex_fs_ok "Account" CONNECTED;
   EvGetConnection NoUsername;
   EvResume first (Some ex_connection)].

(** The request of the first call is rejected and its promise ends; the org
    changes; a second call sends its request. *)
Definition ex_two_sessions : list (Event string) :=
  ex_call_sends_request 0
  ++ [EvRespond ex_fs_ok 0 Throw; EvFinally 0;
      EvOrgChanged true ex_org_folder]
  ++ ex_call_sends_request 1.

(** The org changes while the request of the first call is in flight; a
    second call sends its request; then the first request is rejected and
    its promise ends. *)
Definition ex_org_changed_in_flight : list (Event string) :=
  ex_call_sends_request 0
  ++ [EvOrgChanged true ex_org_folder]
  ++ ex_call_sends_request 1
  ++ [EvRespond ex_fs_ok 0 Throw; EvFinally 0].

End SessionExamples.

(** ** [transformYamlToObject] of [yamlParser.ts] *)

Module YamlParser.

(** What [parse] of the yaml package returns: [null], a scalar, an array
    or a plain object.  The properties of an object are listed in the order
    in which [Object.entries] gives them; the code never looks at a number,
    which is kept as an integer. *)
#[warnings="-register-all"]
Inductive Yaml : Type :=
| YNull
| YBool (b : bool)
| YNumber (n : Z)
| YString (s : string)
| YSeq (items : list Yaml)
| YMap (properties : list (string * Yaml)).

(** What [parsedYaml[designatedLevelProperty]] can be: a parsed value, or
    something found on the prototype chain (a method, a prototype object),
    which has no enumerable property of its own. *)
Inductive JsValue : Type :=
| Data (y : Yaml)
| Builtin.

Inductive Error : Type :=
| YAMLParseError
| TypeError
| DesignatedLevelNotFound (designatedLevelProperty : string)
| NotAnArrayOfStrings (key : string).

Inductive Outcome (A : Type) : Type :=
| Returned (a : A)
| Thrown (e : Error).
Arguments Returned {A} a.
Arguments Thrown {A} e.

Fixpoint own_property (prop : string) (properties : list (string * Yaml))
    : option Yaml :=
  match properties with
  | [] => None
  | (k, v) :: rest =>
      if decide (k = prop) then Some v else own_property prop rest
  end.

(** The index an array has under the key [prop], if any: the keys of an
    array of length [len] are the decimal numerals below [len]. *)
Definition array_index (prop : string) (len : nat) : option nat :=
  find (λ i, bool_decide (pretty i = prop)) (seq 0 len).

Definition is_string (y : Yaml) : bool :=
  match y with YString _ => true | _ => false end.

Definition string_of (y : Yaml) : option string :=
  match y with YString s => Some s | _ => None end.

(** [Array.isArray(value) && value.every((item) => typeof item ===
    'string')], with the strings when the test holds. *)
Definition array_of_strings (value : Yaml) : option (list string) :=
  match value with
  | YSeq items =>
      if forallb is_string items then Some (omap string_of items) else None
  | _ => None
  end.

(** [result[key] = value] on a plain object: the key [__proto__] names the
    prototype, and assigning an array to it adds no property. *)
Definition assign (key : string) (value : list string)
    (result : gmap string (list string)) : gmap string (list string) :=
  if decide (key = "__proto__") then result else <[key := value]> result.

(** The loop over [Object.entries(designatedLevel)]. *)
Fixpoint fill (entries : list (string * Yaml))
    (result : gmap string (list string))
    : Outcome (gmap string (list string)) :=
  match entries with
  | [] => Returned result
  | (key, value) :: rest =>
      match array_of_strings value with
      | Some strings => fill rest (assign key strings result)
      | None => Thrown (NotAnArrayOfStrings key)
      end
  end.

(** [Object.entries]: it throws on [null]; a boolean or a number has no
    entry; a string has one entry per character and an array one per item,
    under the decimal numeral of the index. *)
Definition Object_entries (v : JsValue) : Outcome (list (string * Yaml)) :=
  match v with
  | Builtin => Returned []
  | Data YNull => Thrown TypeError
  | Data (YBool _) => Returned []
  | Data (YNumber _) => Returned []
  | Data (YString s) =>
      Returned (imap (λ i c, (pretty i, YString (String c EmptyString)))
                  (String.list_ascii_of_string s))
  | Data (YSeq items) => Returned (imap (λ i item, (pretty i, item)) items)
  | Data (YMap properties) => Returned properties
  end.

Section Transform.

(** [parse] of the yaml package ([Throw]: the text is not YAML), and the
    names that [Object.prototype] and the prototype chain of an array
    define. *)
Variable parse : string → Completion Yaml.
Variable Object_prototype_has : string → bool.
Variable Array_prototype_has : string → bool.

(** [designatedLevelProperty in parsedYaml]: a [TypeError] when the right
    operand is not an object. *)
Definition in_operator (prop : string) (parsedYaml : Yaml) : Outcome bool :=
  match parsedYaml with
  | YMap properties =>
      Returned (match own_property prop properties with
                | Some _ => true
                | None => Object_prototype_has prop
                end)
  | YSeq items =>
      Returned (match array_index prop (length items) with
                | Some _ => true
                | None =>
                    if decide (prop = "length") then true
                    else Array_prototype_has prop
                end)
  | _ => Thrown TypeError
  end.

(** [parsedYaml[designatedLevelProperty]], for an object. *)
Definition get_property (prop : string) (parsedYaml : Yaml) : JsValue :=
  match parsedYaml with
  | YMap properties =>
      match own_property prop properties with
      | Some v => Data v
      | None => Builtin
      end
  | YSeq items =>
      match array_index prop (length items) with
      | Some i =>
          match items !! i with Some item => Data item | None => Builtin end
      | None =>
          if decide (prop = "length")
          then Data (YNumber (Z.of_nat (length items)))
          else Builtin
      end
  | _ => Builtin
  end.

Definition transformYamlToObject (yamlContent designatedLevelProperty : string)
    : Outcome (gmap string (list string)) :=
  match parse yamlContent with
  | Throw => Thrown YAMLParseError
  | Normal parsedYaml =>
      match in_operator designatedLevelProperty parsedYaml with
      | Thrown e => Thrown e
      | Returned false =>
          Thrown (DesignatedLevelNotFound designatedLevelProperty)
      | Returned true =>
          let designatedLevel :=
            get_property designatedLevelProperty parsedYaml in
          match Object_entries designatedLevel with
          | Thrown e => Thrown e
          | Returned entries => fill entries ∅
          end
      end
  end.

End Transform.

End YamlParser.

(** ** The code actions of [server.ts] *)

Module Server.
Import ValidateGraphql.

(** The argument of the command that updates the workspace setting. *)
Inductive SettingUpdate : Type :=
| UpdateSuppressByRuleId (suppressByRuleId : list string)
| UpdateSuppressAll (suppressAll : bool).

Record Command : Type := mkCommand {
  command_title : string;
  command : string;
  arguments : list SettingUpdate
}.

Record CodeAction : Type := mkCodeAction {
  title : string;
  kind : string;
  diagnostics : list Diagnostic;
  action_command : Command
}.

(** [CodeActionKind.QuickFix]. *)
Definition QuickFix : string := "quickfix".

(** A JavaScript [Set] of strings, as the list of its elements in the
    order of insertion. *)
Definition Set_add (x : string) (s : list string) : list string :=
  if bool_decide (x ∈ s) then s else s ++ [x].

Definition new_Set (iterable : list string) : list string :=
  foldl (λ s x, Set_add x s) [] iterable.

Definition Array_from (s : list string) : list string := s.

Section Handlers.

(** The variables of the module that the handler reads:
    [updateDiagnosticsSettingCommand] and [settings.suppressByRuleId]. *)
Variable updateDiagnosticsSettingCommand : string.
Variable suppressByRuleId_setting : list string.

(** The body of [diagnostics.forEach((diagnostic) => { ... })]. *)
Definition pushActions (result : list CodeAction) (diagnostic : Diagnostic)
    : list CodeAction :=
  let producerId := data diagnostic in
  let suppressByRuleId :=
    Set_add producerId (new_Set suppressByRuleId_setting) in
  let suppressThisDiagnostic :=
    mkCodeAction ("Suppress such diagnostic: " +:+ producerId) QuickFix
      [diagnostic]
      (mkCommand "Update workspace setting" updateDiagnosticsSettingCommand
         [UpdateSuppressByRuleId (Array_from suppressByRuleId)]) in
  let suppressAllDiagnostic :=
    mkCodeAction "Suppress all Salesforce Mobile diagnostics" QuickFix
      [diagnostic]
      (mkCommand "Update workspace setting" updateDiagnosticsSettingCommand
         [UpdateSuppressAll true]) in
  (result ++ [suppressThisDiagnostic]) ++ [suppressAllDiagnostic].

(** [connection.onCodeAction]: [None] is [undefined]. *)
Definition onCodeAction (documentCache : gmap string TextDocument)
    (params_uri : string) (params_diagnostics : list Diagnostic)
    : option (list CodeAction) :=
  match documentCache !! params_uri with
  | None => None
  | Some _ =>
      if (length params_diagnostics =? 0)%nat then None
      else Some (foldl pushActions [] params_diagnostics)
  end.

End Handlers.

(** [documents.onDidChangeContent] and [documents.onDidClose]. *)
Definition onDidChangeContent (document : TextDocument)
    (documentCache : gmap string TextDocument) : gmap string TextDocument :=
  <[uri document := document]> documentCache.

Definition onDidClose (document : TextDocument)
    (documentCache : gmap string TextDocument) : gmap string TextDocument :=
  delete (uri document) documentCache.

End Server.

(** ** [WorkspaceUtils] of [src/utils/workspaceUtils.ts] *)

Module WorkspaceUtils.

Inductive Error : Type :=
| NoWorkspaceError
| NoStaticResourcesDirError (staticResourcesPath : string).

Inductive Outcome (A : Type) : Type :=
| Returned (a : A)
| Thrown (e : Error).
Arguments Returned {A} a.
Arguments Thrown {A} e.

Section Workspace.

(** [path.join], the file system ([fs.existsSync], and [access] of
    [fs/promises]: [false] when it is rejected) and the names of
    [./constants]. *)
Variable path_join : list string → string.
Variable existsSync : string → bool.
Variable access : string → bool.
Variable PACKAGE_JSON : string.
Variable SFDX_PROJECT_FILE : string.

Definition DEFAULT_APP_PATH : string :=
  path_join ["force-app"; "main"; "default"].

Definition STATIC_RESOURCES_PATH : string :=
  path_join [DEFAULT_APP_PATH; "staticresources"].

Definition LWC_PATH : string := path_join [DEFAULT_APP_PATH; "lwc"].

(** [workspace.workspaceFolders] is [undefined] or the list of the
    folders, here of their [uri.fsPath]. *)
Definition getWorkspaceDir (workspaceFolders : option (list string))
    : Outcome string :=
  match workspaceFolders with
  | None => Thrown NoWorkspaceError
  | Some [] => Thrown NoWorkspaceError
  | Some (folder :: _) => Returned folder
  end.

(** The state the promise of [getStaticResourcesDir] ends in. *)
Definition getStaticResourcesDir (workspaceFolders : option (list string))
    : Outcome string :=
  match getWorkspaceDir workspaceFolders with
  | Thrown err => Thrown err
  | Returned projectPath =>
      let staticResourcesPath :=
        path_join [projectPath; STATIC_RESOURCES_PATH] in
      if access staticResourcesPath then Returned staticResourcesPath
      else Thrown (NoStaticResourcesDirError staticResourcesPath)
  end.

Definition exists_in_workspace (relative : string)
    (workspaceFolders : option (list string)) : bool :=
  match getWorkspaceDir workspaceFolders with
  | Returned dir => existsSync (path_join [dir; relative])
  | Thrown _ => false
  end.

Definition packageJsonExists := exists_in_workspace PACKAGE_JSON.
Definition lwcFolderExists := exists_in_workspace LWC_PATH.
Definition isSfdxProjectOpened := exists_in_workspace SFDX_PROJECT_FILE.

End Workspace.

End WorkspaceUtils.

(** ** More concrete inputs *)

Module MoreExamples.
Import ValidateGraphql Examples OrgUtils OrgExamples.

Definition ex_two_rules : list (DiagnosticProducer unit) :=
  [ex_first_line_rule; ex_two_findings_rule].

(** A range on the first line, in two objects. *)
Definition ex_range_diagnostic : Diagnostic :=
  mkDiagnostic (mkRange 0 1) 2 "misspelled field" "misspelled-uiapi".

Definition ex_range_heap : heap :=
  {[0 := mkPosition 0 3; 1 := mkPosition 0 8]}.

(** The request for the object answers. *)
Definition ex_net_success : Network string :=
  mkNetwork (Created ex_connection) (Normal ["Account"; "Contact"])
    NoUsername (Normal (Some "Account: Name, Phone")).

(** A connected session with its list of entities. *)
Definition ex_connected : OrgState string :=
  run [EvAuth (Created ex_connection) (Normal ["Account"; "Contact"])]
    ex_init.

(** The request for [Account] is in flight. *)
Definition ex_in_flight : OrgState string := run ex_two_calls ex_init.

(** The folder in use after a change of org: empty. *)
Definition ex_folder : gmap string string * option (list string) := (∅, None).

Import YamlParser.

Definition ex_yaml : Yaml :=
  YMap [("values",
         YMap [("Account", YSeq [YString "Name"; YString "Phone"]);
               ("Contact", YSeq [YString "Email"])])].

Definition ex_yaml_bad : Yaml :=
  YMap [("values",
         YMap [("Account", YSeq [YString "Name"]);
               ("Contact", YString "Email");
               ("Lead", YNumber 3)])].

Definition ex_yaml_parse (yamlContent : string) : Completion Yaml :=
  if String.eqb yamlContent "good" then Normal ex_yaml
  else if String.eqb yamlContent "bad" then Normal ex_yaml_bad
  else Throw.

(** The names every object inherits from [Object.prototype]. *)
Definition ex_Object_prototype_has (prop : string) : bool :=
  bool_decide
    (prop ∈ ["constructor"; "__defineGetter__"; "__defineSetter__";
             "hasOwnProperty"; "__lookupGetter__"; "__lookupSetter__";
             "isPrototypeOf"; "propertyIsEnumerable"; "toString"; "valueOf";
             "__proto__"; "toLocaleString"]).

Definition ex_Array_prototype_has (prop : string) : bool :=
  ex_Object_prototype_has prop
  || bool_decide (prop ∈ ["map"; "filter"; "forEach"; "push"; "pop"]).

Definition ex_transform : string → string → Outcome (gmap string (list string)) :=
  transformYamlToObject ex_yaml_parse ex_Object_prototype_has
    ex_Array_prototype_has.

Definition ex_documentCache : gmap string TextDocument :=
  {["file:///app.js" := ex_document "two literals"]}.

Definition ex_reported : list Diagnostic :=
  [mkDiagnostic (mkRange 0 1) 2 "misspelled field" "rule-a";
   mkDiagnostic (mkRange 2 3) 2 "unknown object" "rule-b"].

Definition ex_path_join (parts : list string) : string :=
  String.concat "/" parts.

Definition ex_existsSync (p : string) : bool :=
  String.eqb p "/project/sfdx-project.json".

End MoreExamples.

(** * Facts about the store of positions *)

Module HeapFacts.
Import ValidateGraphql Spec.

Lemma add_character_zero p : add_character 0 p = p.
Proof. destruct p as [l c]. unfold add_character; simpl. f_equal. lia. Qed.

Lemma add_line_zero p : add_line 0 p = p.
Proof. destruct p as [l c]. unfold add_line; simpl. f_equal. lia. Qed.

Lemma add_character_on_first_line_zero r (h : heap) :
  add_character_on_first_line 0 r h = h.
Proof.
  unfold add_character_on_first_line.
  destruct (h !! r) as [p|] eqn:Hr; [|done].
  destruct (line p =? 0)%Z; [|done].
  rewrite add_character_zero. by apply insert_id.
Qed.

Lemma add_line_at_zero r (h : heap) : add_line_at 0 r h = h.
Proof. unfold add_line_at. apply alter_id. intros p _. apply add_line_zero. Qed.

Lemma lookup_add_character_eq c r (h : heap) p :
  h !! r = Some p →
  add_character_on_first_line c r h !! r
  = Some (if (line p =? 0)%Z then add_character c p else p).
Proof.
  intros Hr. unfold add_character_on_first_line. rewrite Hr.
  destruct (line p =? 0)%Z; [by rewrite lookup_insert_eq | done].
Qed.

Lemma lookup_add_character_ne c r r' (h : heap) :
  r ≠ r' → add_character_on_first_line c r h !! r' = h !! r'.
Proof.
  intros Hne. unfold add_character_on_first_line.
  destruct (h !! r) as [p|]; [|done].
  destruct (line p =? 0)%Z; [by rewrite lookup_insert_ne | done].
Qed.

Lemma lookup_add_line_eq l r (h : heap) :
  add_line_at l r h !! r = add_line l <$> h !! r.
Proof. unfold add_line_at. by rewrite lookup_alter_eq. Qed.

Lemma lookup_add_line_ne l r r' (h : heap) :
  r ≠ r' → add_line_at l r h !! r' = h !! r'.
Proof. intros Hne. unfold add_line_at. by rewrite lookup_alter_ne. Qed.

(** One endpoint, taken through its two updates, is the endpoint the
    specification describes. *)
Lemma remapped_endpoint_steps l c p :
  add_line l (if (line p =? 0)%Z then add_character c p else p)
  = remapped_endpoint l c p.
Proof.
  unfold remapped_endpoint, add_line, add_character.
  destruct (line p =? 0)%Z; reflexivity.
Qed.

Lemma updateDiagnosticOffset_distinct d l c (h : heap) ps pe :
  start (range d) ≠ end_ (range d) →
  h !! start (range d) = Some ps →
  h !! end_ (range d) = Some pe →
  updateDiagnosticOffset d l c h !! start (range d)
    = Some (remapped_endpoint l c ps) ∧
  updateDiagnosticOffset d l c h !! end_ (range d)
    = Some (remapped_endpoint l c pe).
Proof.
  intros Hne Hs He. unfold updateDiagnosticOffset. split.
  - rewrite lookup_add_line_ne by done.
    rewrite lookup_add_line_eq, lookup_add_character_ne by done.
    rewrite (lookup_add_character_eq _ _ _ _ Hs). simpl.
    by rewrite remapped_endpoint_steps.
  - rewrite lookup_add_line_eq, lookup_add_line_ne by done.
    rewrite (lookup_add_character_eq c (end_ (range d)) _ pe).
    + simpl. by rewrite remapped_endpoint_steps.
    + by rewrite lookup_add_character_ne.
Qed.

Lemma updateDiagnosticOffset_other d l c (h : heap) r :
  r ≠ start (range d) → r ≠ end_ (range d) →
  updateDiagnosticOffset d l c h !! r = h !! r.
Proof.
  intros H1 H2. unfold updateDiagnosticOffset.
  rewrite !lookup_add_line_ne, !lookup_add_character_ne by done. done.
Qed.

End HeapFacts.

(** * Facts about [Promise.all] *)

Module PromiseFacts.

Section Join.
Context {A : Type}.
Implicit Types (ps : list (Promise A)) (values : list (option A)).

Lemma existsb_rejected_lookup ps :
  existsb is_rejected ps = true ↔ ∃ i, ps !! i = Some Rejected.
Proof.
  induction ps as [|p ps IH]; simpl.
  - split; [done | intros [i Hi]; by rewrite lookup_nil in Hi].
  - rewrite orb_true_iff, IH. split.
    + intros [Hp | [i Hi]].
      * exists 0. destruct p; try done.
      * by exists (S i).
    + intros [[|i] Hi]; simpl in Hi.
      * left. by inversion Hi.
      * right. by exists i.
Qed.

Lemma all_settle_rejected sched ps values i :
  i ∈ sched → ps !! i = Some Rejected →
  all_settle sched ps values = Rejected.
Proof.
  revert values. induction sched as [|j sched IH]; intros values Hin Hi.
  - by apply elem_of_nil in Hin.
  - simpl. destruct (decide (j = i)) as [->|Hne].
    + by rewrite Hi.
    + apply elem_of_cons in Hin as [->|Hin]; [done|].
      destruct (ps !! j) as [[v| |]|]; eauto.
Qed.

Lemma mapM_fulfilled_values ps :
  existsb is_rejected ps = false →
  mapM id (fulfilled_value <$> ps)
  = if existsb is_pending ps then None else Some (omap fulfilled_value ps).
Proof.
  induction ps as [|p ps IH]; simpl; [done|].
  intros Hrej. apply orb_false_iff in Hrej as [Hp Hps].
  specialize (IH Hps).
  destruct p as [v| |]; simpl in *; try done.
  change (list_fmap (Promise A) (option A) fulfilled_value ps)
    with (fulfilled_value <$> ps).
  rewrite IH. by destruct (existsb is_pending ps).
Qed.

Lemma all_settle_filled sched ps values :
  existsb is_rejected ps = false →
  length values = length ps →
  (∀ j p, ps !! j = Some p →
     values !! j = Some (fulfilled_value p) ∨
     (values !! j = Some None ∧ j ∈ sched)) →
  all_settle sched ps values
  = match mapM id (fulfilled_value <$> ps) with
    | Some vs => Fulfilled vs
    | None => Pending
    end.
Proof.
  intros Hrej. revert values.
  induction sched as [|i sched IH]; intros values Hlen Hfill; simpl.
  - replace values with (fulfilled_value <$> ps); [done|].
    apply list_eq. intros j. rewrite list_lookup_fmap.
    destruct (ps !! j) as [p|] eqn:Hj; simpl.
    + destruct (Hfill j p Hj) as [->|[_ Hin]]; [done|].
      by apply elem_of_nil in Hin.
    + symmetry. apply lookup_ge_None. rewrite Hlen.
      by apply lookup_ge_None.
  - destruct (ps !! i) as [[v| |]|] eqn:Hi.
    + apply IH; [by rewrite length_insert|].
      intros j p Hj. destruct (decide (i = j)) as [<-|Hne].
      * left. rewrite list_lookup_insert_eq.
        -- rewrite Hi in Hj. by inversion Hj.
        -- rewrite Hlen. by eapply lookup_lt_Some.
      * rewrite list_lookup_insert_ne by done.
        destruct (Hfill j p Hj) as [?|[? Hin]]; [by left|].
        right. split; [done|].
        apply elem_of_cons in Hin as [->|Hin]; done.
    + assert (existsb is_rejected ps = true) as Hc
        by (apply existsb_rejected_lookup; eauto).
      congruence.
    + apply IH; [done|].
      intros j p Hj. destruct (Hfill j p Hj) as [?|[Hnone Hin]]; [by left|].
      apply elem_of_cons in Hin as [->|Hin]; [|by right].
      left. rewrite Hi in Hj. inversion Hj; subst. done.
    + apply IH; [done|].
      intros j p Hj. destruct (Hfill j p Hj) as [?|[Hnone Hin]]; [by left|].
      apply elem_of_cons in Hin as [->|Hin]; [|by right].
      congruence.
Qed.

(** Whatever the order in which the promises settle, the join ends as
    [Promise_all] says. *)
Lemma Promise_all_sched_complete sched ps :
  complete_schedule sched ps →
  Promise_all_sched sched ps = Promise_all ps.
Proof.
  intros Hc. unfold Promise_all_sched, Promise_all.
  destruct (existsb is_rejected ps) eqn:Hrej.
  - apply existsb_rejected_lookup in Hrej as [i Hi].
    apply (all_settle_rejected _ _ _ i); [|done].
    by apply (Hc i Rejected).
  - rewrite all_settle_filled; [|done|by rewrite length_replicate|].
    + rewrite mapM_fulfilled_values by done.
      by destruct (existsb is_pending ps).
    + intros j p Hj.
      assert (j < length ps) as Hlt by (by eapply lookup_lt_Some).
      rewrite lookup_replicate_2 by done.
      destruct (is_pending p) eqn:Hp.
      * left. by destruct p.
      * right. split; [done|]. by apply (Hc j p).
Qed.

Lemma Promise_all_fulfilled (ls : list (list A)) (qs : list (Promise (list A))) :
  qs = Fulfilled <$> ls → Promise_all qs = Fulfilled ls.
Proof.
  intros ->. unfold Promise_all.
  assert (existsb is_rejected (Fulfilled <$> ls) = false) as ->
    by (induction ls; simpl; auto).
  assert (existsb is_pending (Fulfilled <$> ls) = false) as ->
    by (induction ls; simpl; auto).
  f_equal. induction ls as [|l ls IH]; simpl; [done|]. f_equal. exact IH.
Qed.

Lemma Promise_all_rejected ps :
  Rejected ∈ ps → Promise_all ps = Rejected.
Proof.
  intros Hin. unfold Promise_all.
  assert (existsb is_rejected ps = true) as ->; [|done].
  apply existsb_rejected_lookup. by apply list_elem_of_lookup.
Qed.

Lemma Promise_all_pending_inv ps :
  Promise_all ps = Pending → Pending ∈ ps.
Proof.
  unfold Promise_all. destruct (existsb is_rejected ps); [done|].
  destruct (existsb is_pending ps) eqn:Hp; [|done]. intros _.
  apply existsb_exists in Hp as [p [Hin Hp]].
  destruct p; try done. by apply list_elem_of_In.
Qed.

End Join.

End PromiseFacts.

(** * Facts about the validation pipeline *)

Module PipelineFacts.
Import ValidateGraphql Spec HeapFacts PromiseFacts.

Section Pipeline.

Variable ASTNode : Type.
Variable parse : string → Completion ASTNode.
Variable gqlPluckFromCodeStringSync : string → string → Completion (list Source).
Variable diagnosticProducers : list (DiagnosticProducer ASTNode).

Local Abbreviation validateOne :=
  (validateOneGraphQuery ASTNode parse diagnosticProducers).
Local Abbreviation queries :=
  (validateQueries ASTNode parse diagnosticProducers).
Local Abbreviation in_order :=
  (diagnostics_in_discovery_order ASTNode parse diagnosticProducers).

Lemma set_positions_same w : set_positions (positions w) w = w.
Proof. by destruct w. Qed.

(** The inner loop appends as many findings as the cap leaves room for,
    in their order, and remaps exactly those. *)
Lemma pushItems_take maxCount l c diagnostics results (h : heap) :
  pushItems maxCount l c diagnostics results h
  = (results ++ take (Z.to_nat maxCount - length results) diagnostics,
     foldl (λ h item, updateDiagnosticOffset item l c h) h
       (take (Z.to_nat maxCount - length results) diagnostics)).
Proof.
  revert results h.
  induction diagnostics as [|item rest IH]; intros results h; simpl.
  - by rewrite !take_nil, app_nil_r.
  - destruct (Z.of_nat (length results) >=? maxCount)%Z eqn:Hcap.
    + rewrite Z.geb_leb in Hcap. apply Z.leb_le in Hcap.
      replace (Z.to_nat maxCount - length results) with 0 by lia.
      by rewrite app_nil_r.
    + rewrite Z.geb_leb in Hcap. apply Z.leb_gt in Hcap.
      rewrite IH, length_app. simpl.
      replace (Z.to_nat maxCount - length results)
        with (S (Z.to_nat maxCount - (length results + 1))) by lia.
      simpl. by rewrite <- app_assoc.
Qed.

Lemma pushItems_length maxCount l c diagnostics results (h : heap) :
  (Z.of_nat (length results) ≤ maxCount)%Z →
  (Z.of_nat (length (fst (pushItems maxCount l c diagnostics results h)))
   ≤ maxCount)%Z.
Proof.
  intros Hle. rewrite pushItems_take. simpl.
  rewrite length_app, length_take. lia.
Qed.

Lemma validateQueries_at_cap maxCount graphQueries results w :
  (maxCount ≤ Z.of_nat (length results))%Z →
  queries maxCount graphQueries results w = (Fulfilled results, w).
Proof.
  intros Hcap. destruct graphQueries as [|query rest]; simpl; [done|].
  assert ((Z.of_nat (length results) >=? maxCount)%Z = true) as ->; [|done].
  rewrite Z.geb_leb. by apply Z.leb_le.
Qed.

Lemma mapProducers_settled producers index textDocument ast w promises w1 :
  Forall settles producers →
  mapProducers ASTNode producers index textDocument ast w
    = (Normal promises, w1) →
  Pending ∉ promises.
Proof.
  intros Hall. revert index w promises w1.
  induction Hall as [|producer rest Hp Hrest IH];
    intros index w promises w1; simpl.
  - intros [= <- <-]. apply not_elem_of_nil.
  - specialize (Hp textDocument ast (positions (log (CallProducer index (getText textDocument)) w))).
    destruct (validateDocument producer textDocument ast _) as [[p|] h];
      [|done].
    destruct (mapProducers ASTNode rest (S index) textDocument ast _)
      as [[ps|] w2] eqn:Hrec; [|done].
    intros [= <- <-]. apply not_elem_of_cons. split.
    + simpl in Hp. congruence.
    + by eapply IH.
Qed.

(** The promises the [map] returns are those of the rules, rule by rule. *)
Lemma mapProducers_registry producers index textDocument ast w promises w1 :
  mapProducers ASTNode producers index textDocument ast w
    = (Normal promises, w1) →
  Forall2 (λ producer p,
             ∃ h, fst (validateDocument producer textDocument ast h)
                  = Returns p)
          producers promises.
Proof.
  revert index w promises w1.
  induction producers as [|producer rest IH];
    intros index w promises w1; simpl.
  - intros [= <- <-]. constructor.
  - destruct (validateDocument producer textDocument ast _) as [[p|] h] eqn:Hcall;
      [|done].
    destruct (mapProducers ASTNode rest (S index) textDocument ast _)
      as [[ps|] w2] eqn:Hrec; [|done].
    intros [= <- <-]. constructor; [|by eapply IH].
    eexists. by rewrite Hcall.
Qed.

Lemma validateOneGraphQuery_not_rejected textDocument graphql w :
  fst (validateOne textDocument graphql w) ≠ Rejected.
Proof.
  unfold validateOneGraphQuery.
  destruct (parse graphql) as [ast|]; [|done].
  destruct (mapProducers _ _ _ _ _ _) as [[promises|] w1]; [|done].
  by destruct (Promise_all promises).
Qed.

Lemma validateOneGraphQuery_fulfils textDocument graphql w :
  Forall settles diagnosticProducers →
  ∃ diagnostics w1,
    validateOne textDocument graphql w = (Fulfilled diagnostics, w1).
Proof.
  intros Hall. unfold validateOneGraphQuery.
  destruct (parse graphql) as [ast|]; [|by eauto].
  destruct (mapProducers _ _ _ _ _ _) as [[promises|] w1] eqn:Hmap;
    [|by eauto].
  destruct (Promise_all promises) eqn:Hjoin; [by eauto|by eauto|].
  apply Promise_all_pending_inv in Hjoin.
  by apply (mapProducers_settled _ _ _ _ _ _ _ Hall) in Hmap.
Qed.

Lemma validateQueries_not_rejected maxCount graphQueries results w :
  fst (queries maxCount graphQueries results w) ≠ Rejected.
Proof.
  revert results w.
  induction graphQueries as [|query rest IH]; intros results w; simpl;
    [done|].
  destruct (Z.of_nat (length results) >=? maxCount)%Z; [done|].
  pose proof (validateOneGraphQuery_not_rejected
                (TextDocument_create "" "graphql" 1 (body query))
                (body query) w) as Hone.
  destruct (validateOneGraphQuery _ _ _ _ _ _) as [[diagnostics| |] w1];
    [|done|done].
  destruct (pushItems _ _ _ _ _ _) as [results1 h]. apply IH.
Qed.

Lemma validateQueries_length maxCount graphQueries results w l :
  (Z.of_nat (length results) ≤ maxCount)%Z →
  fst (queries maxCount graphQueries results w) = Fulfilled l →
  (Z.of_nat (length l) ≤ maxCount)%Z.
Proof.
  revert results w.
  induction graphQueries as [|query rest IH]; intros results w Hle; simpl.
  - by intros [= <-].
  - destruct (Z.of_nat (length results) >=? maxCount)%Z;
      [by intros [= <-]|].
    destruct (validateOneGraphQuery _ _ _ _ _ _) as [[diagnostics| |] w1];
      [|done|done].
    pose proof (pushItems_length maxCount
                  (loc_line (locationOffset query) - 1)
                  (loc_column (locationOffset query) + 1)
                  diagnostics results (positions w1) Hle) as Hpush.
    destruct (pushItems _ _ _ _ _ _) as [results1 h]. by apply IH.
Qed.

(** With rules that settle, the outer loop returns its list: the first
    [maxCount] of all the findings in the order of discovery. *)
Lemma validateQueries_in_order maxCount graphQueries results w :
  Forall settles diagnosticProducers →
  (Z.of_nat (length results) ≤ maxCount)%Z →
  fst (queries maxCount graphQueries results w)
  = Fulfilled (take (Z.to_nat maxCount) (results ++ in_order graphQueries w)).
Proof.
  intros Hall. revert results w.
  induction graphQueries as [|query rest IH]; intros results w Hle; simpl.
  - rewrite app_nil_r, take_ge by lia. done.
  - destruct (Z.of_nat (length results) >=? maxCount)%Z eqn:Hcap.
    + rewrite Z.geb_leb in Hcap. apply Z.leb_le in Hcap. simpl.
      rewrite take_app_le by lia. rewrite take_ge by lia. done.
    + rewrite Z.geb_leb in Hcap. apply Z.leb_gt in Hcap.
      destruct (validateOneGraphQuery_fulfils
                  (TextDocument_create "" "graphql" 1 (body query))
                  (body query) w Hall) as (diagnostics & w1 & Hone).
      unfold findings_of. rewrite Hone, pushItems_take.
      set (k := Z.to_nat maxCount - length results).
      destruct (decide (length diagnostics ≤ k)) as [Hfit|Hover].
      * rewrite !take_ge by done.
        rewrite IH by (rewrite length_app; lia).
        by rewrite <- app_assoc.
      * rewrite validateQueries_at_cap
          by (rewrite length_app, length_take; lia).
        simpl. f_equal.
        rewrite take_app_ge by lia. f_equal.
        fold k. rewrite take_app_le by lia. done.
Qed.

Lemma validateOneGraphQuery_unparsable textDocument graphql w :
  parse graphql = Throw →
  validateOne textDocument graphql w
  = (Fulfilled [], log (CallParse graphql) w).
Proof. intros Hp. unfold validateOneGraphQuery. by rewrite Hp. Qed.

(** A fragment with no finding leaves the loop as it found it. *)
Lemma validateQueries_skip maxCount query rest results w w1 :
  (Z.of_nat (length results) < maxCount)%Z →
  validateOne (TextDocument_create "" "graphql" 1 (body query))
    (body query) w = (Fulfilled [], w1) →
  queries maxCount (query :: rest) results w
  = queries maxCount rest results w1.
Proof.
  intros Hlt Hone. simpl.
  assert ((Z.of_nat (length results) >=? maxCount)%Z = false) as ->.
  { rewrite Z.geb_leb. by apply Z.leb_gt. }
  rewrite Hone. simpl. by rewrite set_positions_same.
Qed.

Lemma validateQueries_all_unparsable maxCount graphQueries results w :
  Forall (λ query, parse (body query) = Throw) graphQueries →
  fst (queries maxCount graphQueries results w) = Fulfilled results.
Proof.
  intros Hall. revert w.
  induction Hall as [|query rest Hq Hrest IH]; intros w; [done|].
  destruct (decide (Z.of_nat (length results) < maxCount)%Z) as [Hlt|Hge].
  - rewrite (validateQueries_skip _ _ _ _ _
               (log (CallParse (body query)) w) Hlt); [apply IH|].
    by apply validateOneGraphQuery_unparsable.
  - rewrite validateQueries_at_cap by lia. done.
Qed.

Lemma validateGraphql_not_rejected textDocument maxCount w graphQueries :
  gqlPluckFromCodeStringSync (uri textDocument) (getText textDocument)
    = Normal graphQueries →
  fst (validateGraphql ASTNode parse gqlPluckFromCodeStringSync
         diagnosticProducers textDocument maxCount w) ≠ Rejected.
Proof.
  intros Hpluck. unfold validateGraphql.
  destruct (_ || _); [done|].
  rewrite Hpluck. apply validateQueries_not_rejected.
Qed.

Lemma in_order_no_rule graphQueries w :
  diagnostics_in_discovery_order ASTNode parse [] graphQueries w = [].
Proof.
  revert w.
  induction graphQueries as [|query rest IH]; intros w; simpl; [done|].
  unfold findings_of, validateOneGraphQuery.
  destruct (parse (body query)) as [ast|]; simpl; apply IH.
Qed.

(** C1: for every document and every positive [maxCount], a list that
    [validateGraphql] returns has at most [maxCount] diagnostics; the list is
    returned whenever the extractor returns and the rules settle; and the
    inner loop, which checks the cap before each append, keeps the bound
    however many findings one fragment has. *)
Theorem validateGraphql_cap textDocument maxCount w :
  (0 < maxCount)%Z →
  (∀ l,
     fst (validateGraphql ASTNode parse gqlPluckFromCodeStringSync
            diagnosticProducers textDocument maxCount w) = Fulfilled l →
     (Z.of_nat (length l) ≤ maxCount)%Z) ∧
  (∀ graphQueries,
     gqlPluckFromCodeStringSync (uri textDocument) (getText textDocument)
       = Normal graphQueries →
     Forall settles diagnosticProducers →
     ∃ l,
       fst (validateGraphql ASTNode parse gqlPluckFromCodeStringSync
              diagnosticProducers textDocument maxCount w) = Fulfilled l ∧
       (Z.of_nat (length l) ≤ maxCount)%Z) ∧
  (∀ lineOffset columnOffset diagnostics results (h : heap),
     (Z.of_nat (length results) ≤ maxCount)%Z →
     (Z.of_nat (length (fst (pushItems maxCount lineOffset columnOffset
                               diagnostics results h))) ≤ maxCount)%Z).
Proof.
  intros Hpos.
  assert (∀ l,
     fst (validateGraphql ASTNode parse gqlPluckFromCodeStringSync
            diagnosticProducers textDocument maxCount w) = Fulfilled l →
     (Z.of_nat (length l) ≤ maxCount)%Z) as Hcap.
  { intros l. unfold validateGraphql.
    destruct (_ || _); [intros [= <-]; simpl; lia|].
    destruct (gqlPluckFromCodeStringSync _ _) as [graphQueries|]; [|done].
    apply validateQueries_length. simpl. lia. }
  split; [exact Hcap|]. split.
  - intros graphQueries Hpluck Hall.
    assert (∃ l,
      fst (validateGraphql ASTNode parse gqlPluckFromCodeStringSync
             diagnosticProducers textDocument maxCount w) = Fulfilled l)
      as [l Hl].
    { unfold validateGraphql. destruct (_ || _); [by eexists|].
      rewrite Hpluck, validateQueries_in_order by (done || simpl; lia).
      by eexists. }
    exists l. split; [done | by apply Hcap].
  - intros. by apply pushItems_length.
Qed.

(** C2, amended: when the extractor returns, [validateGraphql] is never
    rejected, whatever the parser and the rules do; it is fulfilled with a
    list when moreover the rules settle, and with the empty list for a
    document with no literal or with unparsable literals only.  (An exception
    of the extractor is not caught: see the counterexample.) *)
Theorem validateGraphql_resolves textDocument maxCount w graphQueries :
  gqlPluckFromCodeStringSync (uri textDocument) (getText textDocument)
    = Normal graphQueries →
  fst (validateGraphql ASTNode parse gqlPluckFromCodeStringSync
         diagnosticProducers textDocument maxCount w) ≠ Rejected ∧
  (Forall settles diagnosticProducers →
   ∃ l, fst (validateGraphql ASTNode parse gqlPluckFromCodeStringSync
               diagnosticProducers textDocument maxCount w) = Fulfilled l) ∧
  (Forall (λ query, parse (body query) = Throw) graphQueries →
   fst (validateGraphql ASTNode parse gqlPluckFromCodeStringSync
          diagnosticProducers textDocument maxCount w) = Fulfilled []).
Proof.
  intros Hpluck. split; [by eapply validateGraphql_not_rejected|]. split.
  - intros Hall. unfold validateGraphql. destruct (_ || _); [by eexists|].
    rewrite Hpluck.
    destruct (decide (0 ≤ maxCount)%Z) as [Hle|Hneg].
    + rewrite validateQueries_in_order by (done || simpl; lia). by eexists.
    + rewrite validateQueries_at_cap by (simpl; lia). by eexists.
  - intros Hbad. unfold validateGraphql. destruct (_ || _); [done|].
    rewrite Hpluck. by apply validateQueries_all_unparsable.
Qed.

(** C3: a fragment whose text does not parse gives the empty list, with no
    rule called, and the loop goes on with the fragments after it exactly as
    if the fragment were not there. *)
Theorem unparsable_fragment_is_skipped textDocument query rest maxCount
    results w :
  parse (body query) = Throw →
  validateOne textDocument (body query) w
    = (Fulfilled [], log (CallParse (body query)) w) ∧
  fst (queries maxCount (query :: rest) results w)
    = fst (queries maxCount rest results (log (CallParse (body query)) w)) ∧
  ((Z.of_nat (length results) < maxCount)%Z →
   queries maxCount (query :: rest) results w
   = queries maxCount rest results (log (CallParse (body query)) w)).
Proof.
  intros Hp. split; [by apply validateOneGraphQuery_unparsable|].
  assert ((Z.of_nat (length results) < maxCount)%Z →
          queries maxCount (query :: rest) results w
          = queries maxCount rest results (log (CallParse (body query)) w))
    as Hskip.
  { intros Hlt. apply validateQueries_skip; [done|].
    by apply validateOneGraphQuery_unparsable. }
  split; [|exact Hskip].
  destruct (decide (Z.of_nat (length results) < maxCount)%Z) as [Hlt|Hge].
  - by rewrite Hskip.
  - by rewrite !validateQueries_at_cap by lia.
Qed.

(** C4: [updateDiagnosticOffset] adds [columnOffset] to the column of an
    endpoint exactly when its line is 0 and adds [lineOffset] to its line
    always, for a range whose two endpoints are two objects; with offsets 5
    and 10 this takes (0,3)-(0,8) to (5,13)-(5,18) and (1,2) to (6,2), the
    column unchanged.  [validateGraphql] calls it with the LocationOffset of
    the fragment, the position of its first character. *)
Theorem updateDiagnosticOffset_remaps d lineOffset columnOffset (h : heap)
    ps pe :
  start (range d) ≠ end_ (range d) →
  h !! start (range d) = Some ps →
  h !! end_ (range d) = Some pe →
  (updateDiagnosticOffset d lineOffset columnOffset h !! start (range d)
     = Some (remapped_endpoint lineOffset columnOffset ps) ∧
   updateDiagnosticOffset d lineOffset columnOffset h !! end_ (range d)
     = Some (remapped_endpoint lineOffset columnOffset pe)) ∧
  (lineOffset = 5%Z → columnOffset = 10%Z →
   (ps = mkPosition 0 3 →
    updateDiagnosticOffset d lineOffset columnOffset h !! start (range d)
    = Some (mkPosition 5 13)) ∧
   (pe = mkPosition 0 8 →
    updateDiagnosticOffset d lineOffset columnOffset h !! end_ (range d)
    = Some (mkPosition 5 18)) ∧
   (ps = mkPosition 1 2 →
    updateDiagnosticOffset d lineOffset columnOffset h !! start (range d)
    = Some (mkPosition 6 2))) ∧
  (∀ query maxCount w w1,
     (0 < maxCount)%Z →
     validateOne (TextDocument_create "" "graphql" 1 (body query))
       (body query) w = (Fulfilled [d], w1) →
     queries maxCount [query] [] w
     = (Fulfilled [d],
        set_positions
          (updateDiagnosticOffset d
             (loc_line (LocationOffset query))
             (loc_column (LocationOffset query)) (positions w1)) w1)).
Proof.
  intros Hne Hs He.
  destruct (updateDiagnosticOffset_distinct d lineOffset columnOffset h ps pe
              Hne Hs He) as [Hstart Hend].
  split; [done|].
  split.
  { intros -> ->. rewrite Hstart, Hend.
    repeat split; by intros ->. }
  intros query maxCount w w1 Hpos Hone. simpl.
  change (Z.of_nat 0) with 0%Z.
  assert ((0 >=? maxCount)%Z = false) as ->.
  { rewrite Z.geb_leb. by apply Z.leb_gt. }
  rewrite Hone, pushItems_take.
  replace (Z.to_nat maxCount - length (@nil Diagnostic))
    with (S (Z.to_nat maxCount - 1)) by (simpl; lia).
  simpl. by rewrite !take_nil.
Qed.

(** C5: with [maxCount <= 0], or with an empty registry, [validateGraphql]
    returns the empty list at once: the world is the one it was called in,
    so the extractor, the parser and the rules were not called. *)
Theorem validateGraphql_short_circuit textDocument maxCount w :
  (maxCount ≤ 0)%Z ∨ diagnosticProducers = [] →
  validateGraphql ASTNode parse gqlPluckFromCodeStringSync
    diagnosticProducers textDocument maxCount w = (Fulfilled [], w).
Proof.
  intros [Hle|Hnil]; unfold validateGraphql.
  - assert ((maxCount <=? 0)%Z = true) as -> by (by apply Z.leb_le). done.
  - rewrite Hnil. simpl. by rewrite orb_true_r.
Qed.


(** C7: when the promise of one rule is rejected, [validateOneGraphQuery]
    is fulfilled with the empty list, whatever the other rules found; the
    loop goes on with the next fragment, and [validateGraphql] is not
    rejected. *)
Theorem rejected_rule_discards_fragment query rest maxCount results w ast
    promises w1 :
  parse (body query) = Normal ast →
  mapProducers ASTNode diagnosticProducers 0
    (TextDocument_create "" "graphql" 1 (body query)) ast
    (log (CallParse (body query)) w) = (Normal promises, w1) →
  Rejected ∈ promises →
  validateOne (TextDocument_create "" "graphql" 1 (body query))
    (body query) w = (Fulfilled [], w1) ∧
  ((Z.of_nat (length results) < maxCount)%Z →
   queries maxCount (query :: rest) results w
   = queries maxCount rest results w1) ∧
  fst (queries maxCount (query :: rest) results w) ≠ Rejected ∧
  (∀ textDocument graphQueries w0,
     gqlPluckFromCodeStringSync (uri textDocument) (getText textDocument)
       = Normal graphQueries →
     fst (validateGraphql ASTNode parse gqlPluckFromCodeStringSync
            diagnosticProducers textDocument maxCount w0) ≠ Rejected).
Proof.
  intros Hparse Hmap Hrej.
  assert (validateOne (TextDocument_create "" "graphql" 1 (body query))
            (body query) w = (Fulfilled [], w1)) as Hone.
  { unfold validateOneGraphQuery.
    rewrite Hparse, Hmap. by rewrite Promise_all_rejected. }
  split; [exact Hone|]. split.
  - intros Hlt. by apply validateQueries_skip.
  - split; [apply validateQueries_not_rejected|].
    intros. by eapply validateGraphql_not_rejected.
Qed.

(** C8: with both offsets 0, [updateDiagnosticOffset] changes nothing:
    every position, those of the range among them, keeps its line and its
    column. *)
Theorem updateDiagnosticOffset_identity d (h : heap) :
  updateDiagnosticOffset d 0 0 h = h.
Proof.
  unfold updateDiagnosticOffset.
  by rewrite !add_character_on_first_line_zero, !add_line_at_zero.
Qed.

End Pipeline.

(** ** The theorems at concrete documents *)

Import Examples.

Lemma ex_rules_settle :
  Forall settles [ex_first_line_rule; ex_two_findings_rule].
Proof. repeat constructor; intros ? ? ?; discriminate. Qed.

Lemma validateGraphql_cap_witness :
  (0 < 2)%Z ∧
  ∃ l,
    fst (run_validateGraphql [ex_first_line_rule; ex_two_findings_rule]
           "two literals" 2) = Fulfilled l ∧
    (Z.of_nat (length l) ≤ 2)%Z.
Proof.
  split; [lia|].
  destruct (validateGraphql_cap unit ex_parse ex_pluck
              [ex_first_line_rule; ex_two_findings_rule]
              (ex_document "two literals") 2 ex_world)
    as (_ & Hlist & _); [lia|].
  apply (Hlist _ eq_refl). exact ex_rules_settle.
Defined.

(** C2, as stated, fails: on a text the extractor throws on,
    [validateGraphql] is rejected. *)
Lemma validateGraphql_rejected_when_extractor_throws :
  ex_pluck "file:///app.js" "const = ;" = Throw ∧
  fst (run_validateGraphql [ex_first_line_rule] "const = ;" 10) = Rejected.
Proof. split; reflexivity. Qed.

Lemma validateGraphql_resolves_witness :
  ex_pluck "file:///app.js" "bad then good"
    = Normal [ex_bad_source; ex_good_source] ∧
  fst (run_validateGraphql [ex_first_line_rule; ex_two_findings_rule]
         "bad then good" 10) ≠ Rejected.
Proof.
  split; [reflexivity|].
  exact (proj1 (validateGraphql_resolves unit ex_parse ex_pluck
                  [ex_first_line_rule; ex_two_findings_rule]
                  (ex_document "bad then good") 10 ex_world
                  [ex_bad_source; ex_good_source] eq_refl)).
Defined.

Lemma unparsable_fragment_is_skipped_witness :
  ex_parse (body ex_bad_source) = Throw ∧
  fst (validateQueries unit ex_parse [ex_first_line_rule] 10
         [ex_bad_source; ex_good_source] [] ex_world)
  = fst (validateQueries unit ex_parse [ex_first_line_rule] 10
           [ex_good_source] []
           (log (CallParse (body ex_bad_source)) ex_world)).
Proof.
  split; [reflexivity|].
  exact (proj1 (proj2 (unparsable_fragment_is_skipped unit ex_parse
                         [ex_first_line_rule] (ex_document "bad then good")
                         ex_bad_source [ex_good_source] 10 [] ex_world
                         eq_refl))).
Defined.

Lemma updateDiagnosticOffset_remaps_witness :
  (0 ≠ 1 ∧
   ({[0 := mkPosition 0 3; 1 := mkPosition 0 8]} : heap) !! 0
     = Some (mkPosition 0 3) ∧
   ({[0 := mkPosition 0 3; 1 := mkPosition 0 8]} : heap) !! 1
     = Some (mkPosition 0 8)) ∧
  updateDiagnosticOffset (mkDiagnostic (mkRange 0 1) 2 "m" "rule") 5 10
    {[0 := mkPosition 0 3; 1 := mkPosition 0 8]} !! 0
    = Some (mkPosition 5 13) ∧
  updateDiagnosticOffset (mkDiagnostic (mkRange 0 1) 2 "m" "rule") 5 10
    {[0 := mkPosition 0 3; 1 := mkPosition 0 8]} !! 1
    = Some (mkPosition 5 18).
Proof.
  split; [split; [discriminate | split; reflexivity]|].
  destruct (updateDiagnosticOffset_remaps unit ex_parse
              [ex_first_line_rule]
              (mkDiagnostic (mkRange 0 1) 2 "m" "rule") 5 10
              {[0 := mkPosition 0 3; 1 := mkPosition 0 8]}
              (mkPosition 0 3) (mkPosition 0 8)
              ltac:(discriminate) eq_refl eq_refl)
    as (_ & Hnumbers & _).
  destruct (Hnumbers eq_refl eq_refl) as (Hstart & Hend & _).
  split; [exact (Hstart eq_refl) | exact (Hend eq_refl)].
Defined.

(** The same through the loop of [validateGraphql]: for a literal whose
    first character is at line 5, column 10, the finding at (0,3)-(0,8) is
    reported at (5,13)-(5,18), and the one at (1,2)-(1,7) at (6,2)-(6,7). *)
Example fragment_at_line_5_column_10 :
  LocationOffset ex_source_at_5_10 = mkLocation 5 10 ∧
  (let '(r, w) :=
     validateQueries unit ex_parse [ex_first_line_rule; ex_two_findings_rule]
       2 [ex_source_at_5_10] [] ex_world in
   match r with
   | Fulfilled ds => ranges_of ds (positions w)
   | _ => []
   end)
  = [(Some (mkPosition 5 13), Some (mkPosition 5 18));
     (Some (mkPosition 6 2), Some (mkPosition 6 7))].
Proof. split; reflexivity. Qed.

Lemma validateGraphql_short_circuit_witness :
  ((0 ≤ 0)%Z ∨ [ex_first_line_rule] = []) ∧
  run_validateGraphql [ex_first_line_rule] "two literals" 0
  = (Fulfilled [], ex_world).
Proof.
  split; [left; lia|].
  apply (validateGraphql_short_circuit unit ex_parse ex_pluck
           [ex_first_line_rule] (ex_document "two literals") 0 ex_world).
  left. lia.
Defined.


(** Outside the hypotheses of the theorems above: a rule whose promise
    never settles leaves [validateGraphql] pending, a rule that throws at the
    call is treated as a rejected one, and a range whose two ends are one
    object gets each offset twice. *)
Remark validateGraphql_other_ends :
  fst (run_validateGraphql [ex_first_line_rule; ex_pending_rule]
         "one literal" 10) = Pending ∧
  fst (run_validateGraphql [ex_first_line_rule; ex_throwing_rule]
         "one literal" 10) = Fulfilled [] ∧
  updateDiagnosticOffset ex_shared_endpoint 5 10 {[0 := mkPosition 0 3]} !! 0
  = Some (mkPosition 10 23).
Proof. repeat split. Qed.

Lemma rejected_rule_discards_fragment_witness :
  (ex_parse (body ex_good_source) = Normal tt ∧
   Rejected ∈ [Fulfilled
                 [mkDiagnostic (mkRange 0 1) 2 "misspelled field"
                    "misspelled-uiapi"];
               @Rejected (list Diagnostic)]) ∧
  fst (validateOneGraphQuery unit ex_parse
         [ex_first_line_rule; ex_rejecting_rule]
         (TextDocument_create "" "graphql" 1 (body ex_good_source))
         (body ex_good_source) ex_world)
  = Fulfilled [].
Proof.
  assert (Rejected ∈ [Fulfilled
                 [mkDiagnostic (mkRange 0 1) 2 "misspelled field"
                    "misspelled-uiapi"];
               @Rejected (list Diagnostic)]) as Hin.
  { apply list_elem_of_further, list_elem_of_here. }
  split; [split; [reflexivity | exact Hin]|].
  destruct (rejected_rule_discards_fragment unit ex_parse ex_pluck
              [ex_first_line_rule; ex_rejecting_rule]
              ex_good_source [ex_good_source] 10 [] ex_world tt
              _ _ eq_refl eq_refl Hin) as (Hone & _).
  by rewrite Hone.
Defined.

End PipelineFacts.

(** * Facts about [OrgUtils.getObjectInfo] *)

Module OrgFacts.
Import OrgUtils.

Section Tables.

Variable ObjectInfoRepresentation : Type.

Local Abbreviation State := (OrgState ObjectInfoRepresentation).
Local Abbreviation flight := (@mkFlight ObjectInfoRepresentation).

Implicit Types (s : State) (h : nat).

Lemma getConnection_tables attempt s :
  let s' := snd (getConnection attempt s) in
  flights s' = flights s ∧
  objectInfoPromises s' = objectInfoPromises s ∧
  objectInfoInMemoCache s' = objectInfoInMemoCache s ∧
  objectInfoFiles s' = objectInfoFiles s ∧
  entities s' = entities s.
Proof.
  unfold getConnection.
  destruct (stored_session _ s); [done|].
  destruct attempt as [| |connect]; simpl; try done.
  by destruct (has_username connect).
Qed.

Lemma getObjectInfoFromCache_miss objectApiName s s1 :
  getObjectInfoFromCache objectApiName s = (None, s1) →
  s1 = s ∧
  objectInfoInMemoCache s !! objectApiName = None ∧
  objectInfoFiles s !! objectApiName = None.
Proof.
  unfold getObjectInfoFromCache, fetchObjectInfoFromDisk.
  destruct (objectInfoInMemoCache s !! objectApiName); [done|].
  destruct (objectInfoFiles s !! objectApiName); [done|].
  by intros [= <-].
Qed.

(** A call for a name that is neither cached nor in the table of promises
    makes a new promise, at the end of [flights]. *)
Lemma proceed_fresh objectApiName s :
  objectInfoInMemoCache s !! objectApiName = None →
  objectInfoFiles s !! objectApiName = None →
  objectInfoPromises s !! objectApiName = None →
  getObjectInfo_proceed objectApiName CONNECTED s
  = (InFlight (length (flights s)),
     set_promises _
       (<[objectApiName := length (flights s)]> (objectInfoPromises s))
       (set_flights _ (flights s ++ [flight objectApiName AwaitConnection])
          s)).
Proof.
  intros Hm Hd Hp.
  unfold getObjectInfo_proceed, getObjectInfoFromCache,
    fetchObjectInfoFromDisk. simpl.
  by rewrite Hm, Hd, Hp.
Qed.

(** What the end of a request leaves behind. *)
Lemma respond_finally_tables s h objectApiName response :
  flights s !! h = Some (flight objectApiName AwaitResponse) →
  let s' := executor_finally h (executor_respond h response s) in
  objectInfoPromises s' = delete objectApiName (objectInfoPromises s) ∧
  flights s'
    = <[h := flight objectApiName (Done (response_value response))]>
        (flights s) ∧
  objectInfoInMemoCache s'
    = match response_value response with
      | Some objectInfo =>
          <[objectApiName := objectInfo]> (objectInfoInMemoCache s)
      | None => objectInfoInMemoCache s
      end ∧
  objectInfoFiles s'
    = match response_value response with
      | Some objectInfo => <[objectApiName := objectInfo]> (objectInfoFiles s)
      | None => objectInfoFiles s
      end.
Proof.
  intros Hh. assert (h < length (flights s)) by (by eapply lookup_lt_Some).
  unfold executor_respond. rewrite Hh.
  destruct response as [[objectInfo|]|]; simpl;
    unfold executor_finally; simpl;
    rewrite list_lookup_insert_eq by done; simpl;
    by rewrite list_insert_insert_eq.
Qed.

Lemma flight_outcome_done s h objectApiName response :
  flights s !! h = Some (flight objectApiName AwaitResponse) →
  flight_outcome h (executor_finally h (executor_respond h response s))
  = Fulfilled (response_value response).
Proof.
  intros Hh. assert (h < length (flights s)) by (by eapply lookup_lt_Some).
  destruct (respond_finally_tables s h objectApiName response Hh)
    as (_ & Hf & _).
  unfold flight_outcome. rewrite Hf.
  by rewrite list_lookup_insert_eq.
Qed.

End Tables.

(** ** Concrete sessions *)

Import OrgExamples.

(** Two ends of a call: it is rejected when the list of entities cannot
    be fetched, and its promise stays pending when the executor sends no
    request (the name is not an entity, or the executor gets no
    connection). *)
Remark getObjectInfo_other_ends :
  fst (getObjectInfo "Account" ex_net_list_fails ex_init) = Rejected ∧
  fst (getObjectInfo "Acount" ex_net_request_fails ex_init) = Pending ∧
  objectInfoPromises
    (snd (getObjectInfo "Acount" ex_net_request_fails ex_init)) !! "Acount"
  = Some 0.
Proof. repeat split. Qed.

End OrgFacts.

(** * More facts about the validation pipeline *)

Module PipelineMore.
Import ValidateGraphql Spec HeapFacts PromiseFacts PipelineFacts.
Import PositionOrder RuleCalls.

Section Pipeline.

Variable ASTNode : Type.
Variable parse : string → Completion ASTNode.
Variable gqlPluckFromCodeStringSync : string → string → Completion (list Source).
Variable diagnosticProducers : list (DiagnosticProducer ASTNode).

Local Abbreviation validateOne :=
  (validateOneGraphQuery ASTNode parse diagnosticProducers).
Local Abbreviation queries :=
  (validateQueries ASTNode parse diagnosticProducers).
Local Abbreviation in_order :=
  (diagnostics_in_discovery_order ASTNode parse diagnosticProducers).
Local Abbreviation validate :=
  (validateGraphql ASTNode parse gqlPluckFromCodeStringSync
     diagnosticProducers).

Lemma validateQueries_app_eq maxCount qs1 qs2 results w :
  queries maxCount (qs1 ++ qs2) results w
  = match queries maxCount qs1 results w with
    | (Fulfilled l, w1) => queries maxCount qs2 l w1
    | other => other
    end.
Proof.
  revert results w.
  induction qs1 as [|query rest IH]; intros results w; simpl; [done|].
  destruct (Z.of_nat (length results) >=? maxCount)%Z eqn:Hcap.
  - rewrite Z.geb_leb in Hcap. apply Z.leb_le in Hcap.
    by rewrite validateQueries_at_cap.
  - destruct (validateOneGraphQuery _ _ _ _ _ _) as [[diagnostics| |] w1];
      [|done|done].
    destruct (pushItems _ _ _ _ _ _) as [results1 h]. apply IH.
Qed.

(** X1: the loop over the fragments of a document can be cut anywhere:
    running it on [qs1 ++ qs2] is running it on [qs1] and, if that is
    fulfilled, going on with [qs2] from the list and the world reached. *)
Theorem validateQueries_app maxCount qs1 qs2 results w :
  validateQueries ASTNode parse diagnosticProducers maxCount (qs1 ++ qs2)
    results w
  = match validateQueries ASTNode parse diagnosticProducers maxCount qs1
            results w with
    | (Fulfilled l, w1) =>
        validateQueries ASTNode parse diagnosticProducers maxCount qs2 l w1
    | other => other
    end.
Proof. apply validateQueries_app_eq. Qed.

(** X2: once the list has [maxCount] diagnostics, the fragments that
    follow are neither parsed nor given to the rules: the result and the
    world, with its log of calls, are those of the run without them. *)
Theorem fragments_after_cap_are_not_visited maxCount qs1 qs2 results w l w1 :
  validateQueries ASTNode parse diagnosticProducers maxCount qs1 results w
    = (Fulfilled l, w1) →
  (maxCount ≤ Z.of_nat (length l))%Z →
  validateQueries ASTNode parse diagnosticProducers maxCount (qs1 ++ qs2)
    results w = (Fulfilled l, w1).
Proof.
  intros Hrun Hcap. rewrite validateQueries_app_eq, Hrun.
  by apply validateQueries_at_cap.
Qed.

Lemma validateGraphql_take textDocument maxCount w graphQueries :
  gqlPluckFromCodeStringSync (uri textDocument) (getText textDocument)
    = Normal graphQueries →
  Forall settles diagnosticProducers →
  fst (validate textDocument maxCount w)
  = Fulfilled
      (take (Z.to_nat maxCount)
         (in_order graphQueries
            (log (CallPluck (uri textDocument) (getText textDocument)) w))).
Proof.
  intros Hpluck Hall. unfold validateGraphql.
  destruct ((maxCount <=? 0)%Z || (length diagnosticProducers =? 0))
    eqn:Hshort.
  - apply orb_true_iff in Hshort as [Hle|Hnil].
    + apply Z.leb_le in Hle. replace (Z.to_nat maxCount) with 0 by lia. done.
    + apply Nat.eqb_eq in Hnil. apply nil_length_inv in Hnil. rewrite Hnil.
      by rewrite in_order_no_rule, take_nil.
  - apply orb_false_iff in Hshort as [Hpos _]. apply Z.leb_gt in Hpos.
    rewrite Hpluck, validateQueries_in_order by (done || simpl; lia). done.
Qed.

(** X3: the cap only cuts the list short: with a larger [maxCount] the
    same document gives a list that begins with the one the smaller
    [maxCount] gives. *)
Theorem validateGraphql_cap_monotone textDocument maxCount maxCount' w
    graphQueries :
  (maxCount ≤ maxCount')%Z →
  gqlPluckFromCodeStringSync (uri textDocument) (getText textDocument)
    = Normal graphQueries →
  Forall settles diagnosticProducers →
  ∃ l l',
    fst (validate textDocument maxCount w) = Fulfilled l ∧
    fst (validate textDocument maxCount' w) = Fulfilled l' ∧
    l `prefix_of` l'.
Proof.
  intros Hle Hpluck Hall.
  rewrite !(validateGraphql_take _ _ _ graphQueries) by done.
  eexists _, _. split; [done|]. split; [done|].
  set (all := in_order graphQueries _).
  replace (Z.to_nat maxCount)
    with (Z.to_nat maxCount `min` Z.to_nat maxCount') by lia.
  rewrite <- take_take. apply prefix_take.
Qed.

(** X4: the number of diagnostics returned is exactly the smaller of
    [maxCount] and the number of findings of the document. *)
Theorem validateGraphql_exact_count textDocument maxCount w graphQueries :
  gqlPluckFromCodeStringSync (uri textDocument) (getText textDocument)
    = Normal graphQueries →
  Forall settles diagnosticProducers →
  ∃ l,
    fst (validate textDocument maxCount w) = Fulfilled l ∧
    length l
    = Z.to_nat maxCount `min`
      length (in_order graphQueries
                (log (CallPluck (uri textDocument) (getText textDocument))
                   w)).
Proof.
  intros Hpluck Hall.
  rewrite (validateGraphql_take _ _ _ graphQueries) by done.
  eexists. split; [done|]. by rewrite length_take.
Qed.

Lemma is_Some_add_character c r r' (h : heap) :
  is_Some (h !! r') → is_Some (add_character_on_first_line c r h !! r').
Proof.
  intros Hs. unfold add_character_on_first_line.
  destruct (h !! r) as [p|] eqn:Hr; [|done].
  destruct (line p =? 0)%Z; [|done].
  destruct (decide (r = r')) as [->|Hne].
  - rewrite lookup_insert_eq. by eexists.
  - by rewrite lookup_insert_ne.
Qed.

Lemma is_Some_add_line l r r' (h : heap) :
  is_Some (h !! r') → is_Some (add_line_at l r h !! r').
Proof. intros Hs. unfold add_line_at. by apply lookup_alter_is_Some. Qed.

Lemma remapped_endpoint_lt l c p q :
  Position_lt p q →
  Position_lt (remapped_endpoint l c p) (remapped_endpoint l c q).
Proof.
  unfold Position_lt, remapped_endpoint. simpl.
  intros [Hlt|[Heq Hlt]]; [left; lia|].
  right. rewrite Heq. split; [done|].
  destruct (line q =? 0)%Z; lia.
Qed.

(** X5: remapping keeps a range well formed: if [start] is not after
    [end] before [updateDiagnosticOffset], it is not after [end] afterwards,
    for all offsets, also when both ends are one object; and a range that is
    not empty stays so. *)
Theorem updateDiagnosticOffset_keeps_order d lineOffset columnOffset
    (h : heap) ps pe :
  h !! start (range d) = Some ps →
  h !! end_ (range d) = Some pe →
  Position_le ps pe →
  ∃ ps' pe',
    updateDiagnosticOffset d lineOffset columnOffset h !! start (range d)
      = Some ps' ∧
    updateDiagnosticOffset d lineOffset columnOffset h !! end_ (range d)
      = Some pe' ∧
    Position_le ps' pe' ∧
    (Position_lt ps pe → Position_lt ps' pe').
Proof.
  intros Hs He Hle.
  destruct (decide (start (range d) = end_ (range d))) as [Heq|Hne].
  - assert (is_Some (updateDiagnosticOffset d lineOffset columnOffset h
                       !! start (range d))) as [p' Hp'].
    { unfold updateDiagnosticOffset.
      do 2 apply is_Some_add_line. do 2 apply is_Some_add_character.
      by eexists. }
    exists p', p'. split; [done|]. split; [by rewrite <- Heq|].
    split; [by right|].
    rewrite Heq, He in Hs. inversion Hs; subst.
    intros [Hlt|[_ Hlt]]; lia.
  - destruct (updateDiagnosticOffset_distinct d lineOffset columnOffset h
                ps pe Hne Hs He) as [Hs' He'].
    eexists _, _. split; [done|]. split; [done|]. split.
    + destruct Hle as [Hlt| ->]; [|by right].
      left. by apply remapped_endpoint_lt.
    + apply remapped_endpoint_lt.
Qed.

Lemma foldl_update_other l c (ds : list Diagnostic) (h : heap) r :
  (∀ d, d ∈ ds → r ≠ start (range d) ∧ r ≠ end_ (range d)) →
  foldl (λ h item, updateDiagnosticOffset item l c h) h ds !! r = h !! r.
Proof.
  revert h. induction ds as [|d ds IH]; intros h Hfree; simpl; [done|].
  rewrite IH.
  - destruct (Hfree d) as [H1 H2]; [apply list_elem_of_here|].
    by apply updateDiagnosticOffset_other.
  - intros d' Hin. apply Hfree. by apply list_elem_of_further.
Qed.

(** X6: the inner loop appends the findings that fit under the cap, in
    their order, and changes no position but the ends of the ranges of
    those: the findings it drops are left as the rule made them. *)
Theorem pushItems_touches_only_pushed maxCount lineOffset columnOffset
    diagnostics results (h : heap) :
  let pushed := take (Z.to_nat maxCount - length results) diagnostics in
  fst (pushItems maxCount lineOffset columnOffset diagnostics results h)
    = results ++ pushed ∧
  ∀ r,
    (∀ d, d ∈ pushed → r ≠ start (range d) ∧ r ≠ end_ (range d)) →
    snd (pushItems maxCount lineOffset columnOffset diagnostics results h)
      !! r = h !! r.
Proof.
  simpl. rewrite pushItems_take. simpl. split; [done|].
  intros r Hfree. by apply foldl_update_other.
Qed.

Lemma mapProducers_calls producers index textDocument ast w r w1 :
  Forall never_throws producers →
  mapProducers ASTNode producers index textDocument ast w = (r, w1) →
  calls w1
  = calls w ++ producer_calls (getText textDocument) index (length producers).
Proof.
  intros Hall. revert index w r w1.
  induction Hall as [|producer rest Hp Hrest IH];
    intros index w r w1; simpl.
  - intros [= <- <-]. by rewrite app_nil_r.
  - specialize (Hp textDocument ast
                  (positions (log (CallProducer index (getText textDocument))
                                w))).
    destruct (validateDocument producer textDocument ast _) as [[p|] h];
      [|done].
    destruct (mapProducers ASTNode rest (S index) textDocument ast _)
      as [r' w2] eqn:Hrec.
    apply IH in Hrec. simpl in Hrec.
    unfold producer_calls. simpl.
    destruct r'; intros [= <- <-]; rewrite Hrec;
      unfold producer_calls; by rewrite <- app_assoc.
Qed.

(** X7: for each fragment the parser is called once; when the text
    parses, every rule of the registry is called once, in the order of the
    registry, also when the promise of an earlier rule is rejected; when it
    does not parse, no rule is called.  (Rules that throw at the call are
    left out: such a rule ends the [map].) *)
Theorem rules_called_once_in_registry_order textDocument graphql w :
  Forall never_throws diagnosticProducers →
  calls (snd (validateOne textDocument graphql w))
  = calls w ++
    CallParse graphql ::
    match parse graphql with
    | Normal _ =>
        producer_calls (getText textDocument) 0 (length diagnosticProducers)
    | Throw => []
    end.
Proof.
  intros Hall. unfold validateOneGraphQuery.
  destruct (parse graphql) as [ast|]; [|done].
  destruct (mapProducers _ _ _ _ _ _) as [r w1] eqn:Hmap.
  apply (mapProducers_calls _ _ _ _ _ _ _ Hall) in Hmap. simpl in Hmap.
  assert (calls w1
          = calls w ++ CallParse graphql ::
            producer_calls (getText textDocument) 0
              (length diagnosticProducers)) as Hcalls
    by (by rewrite Hmap, <- app_assoc).
  destruct r as [promises|]; [|done].
  by destruct (Promise_all promises).
Qed.

End Pipeline.

End PipelineMore.

(** * More facts about [OrgUtils] *)

Module OrgMore.
Import OrgUtils OrgReset OrgFacts.

Section Tables.

Variable ObjectInfoRepresentation : Type.

Local Abbreviation State := (OrgState ObjectInfoRepresentation).
Local Abbreviation flight := (@mkFlight ObjectInfoRepresentation).

Implicit Types (s : State) (h : nat).

Lemma getConnection_only_connection attempt s :
  snd (getConnection attempt s)
  = set_connection _ (connection (snd (getConnection attempt s))) s.
Proof.
  destruct s. unfold getConnection.
  destruct (stored_session _ _); [done|].
  destruct attempt as [| |connect]; simpl; try done.
  by destruct (has_username connect).
Qed.

Lemma getConnection_connectStatus attempt s :
  connectStatus (snd (getConnection attempt s)) = connectStatus s.
Proof. by rewrite getConnection_only_connection. Qed.

Lemma checkAuthStatus_tables attempt describeGlobal s :
  let s' := snd (checkAuthStatus attempt describeGlobal s) in
  flights s' = flights s ∧
  objectInfoPromises s' = objectInfoPromises s ∧
  objectInfoInMemoCache s' = objectInfoInMemoCache s ∧
  objectInfoFiles s' = objectInfoFiles s.
Proof.
  unfold checkAuthStatus.
  destruct (connectStatus s); [|done|done].
  pose proof (getConnection_tables _ attempt s) as (Hf & Hp & Hm & Hd & _).
  destruct (getConnection attempt s) as [connection_ s1]. simpl in *.
  destruct connection_ as [c|]; simpl; [|done].
  destruct (entityListFile s1); simpl; [done|].
  by destruct (connection s1), describeGlobal.
Qed.

(** X8: what a response stores can be read back: after
    [objectInfoResponseCallback] the object is found in the memory cache and
    on disk, and the lookup of every other name answers as before. *)
Theorem response_is_cached objectApiName objectInfo s :
  getObjectInfoFromCache objectApiName
    (objectInfoResponseCallback objectApiName objectInfo s)
  = (Some objectInfo, objectInfoResponseCallback objectApiName objectInfo s) ∧
  fetchObjectInfoFromDisk objectApiName
    (objectInfoResponseCallback objectApiName objectInfo s)
  = Some objectInfo ∧
  ∀ other,
    other ≠ objectApiName →
    fst (getObjectInfoFromCache other
           (objectInfoResponseCallback objectApiName objectInfo s))
    = fst (getObjectInfoFromCache other s).
Proof.
  unfold getObjectInfoFromCache, fetchObjectInfoFromDisk,
    objectInfoResponseCallback. simpl.
  rewrite !lookup_insert_eq. split; [done|]. split; [done|].
  intros other Hne. rewrite !lookup_insert_ne by done.
  destruct (objectInfoInMemoCache s !! other); [done|].
  by destruct (objectInfoFiles s !! other).
Qed.

Lemma cache_hit_in_memo objectApiName objectInfo s :
  fst (getObjectInfoFromCache objectApiName s) = Some objectInfo →
  objectInfoInMemoCache (snd (getObjectInfoFromCache objectApiName s))
    !! objectApiName = Some objectInfo.
Proof.
  unfold getObjectInfoFromCache, fetchObjectInfoFromDisk.
  destruct (objectInfoInMemoCache s !! objectApiName) as [oi|] eqn:Hm; simpl.
  - by intros [= <-].
  - destruct (objectInfoFiles s !! objectApiName) as [oi|]; simpl.
    + intros [= <-]. apply lookup_insert_eq.
    + by rewrite Hm.
Qed.

(** X9: a lookup in the caches can be repeated: the second lookup gives
    the answer of the first and changes nothing; an object found on disk
    only is in the memory cache afterwards; the files are never changed. *)
Theorem getObjectInfoFromCache_idempotent objectApiName s :
  getObjectInfoFromCache objectApiName
    (snd (getObjectInfoFromCache objectApiName s))
  = getObjectInfoFromCache objectApiName s ∧
  objectInfoFiles (snd (getObjectInfoFromCache objectApiName s))
  = objectInfoFiles s ∧
  (∀ objectInfo,
     fst (getObjectInfoFromCache objectApiName s) = Some objectInfo →
     objectInfoInMemoCache (snd (getObjectInfoFromCache objectApiName s))
       !! objectApiName = Some objectInfo).
Proof.
  unfold getObjectInfoFromCache, fetchObjectInfoFromDisk.
  destruct (objectInfoInMemoCache s !! objectApiName) as [oi|] eqn:Hm; simpl.
  - rewrite Hm. split; [done|]. split; [done|]. by intros ? [= <-].
  - destruct (objectInfoFiles s !! objectApiName) as [oi|] eqn:Hd; simpl.
    + rewrite !lookup_insert_eq. split; [done|]. split; [done|].
      by intros ? [= <-].
    + rewrite Hm, Hd. split; [done|]. split; [done|]. done.
Qed.

Lemma checkAuthStatus_fulfilled attempt describeGlobal s st s1 :
  checkAuthStatus attempt describeGlobal s = (Fulfilled st, s1) →
  connectStatus s1 = st ∧ st ≠ UNKNOWN.
Proof.
  unfold checkAuthStatus.
  destruct (connectStatus s) eqn:Hs.
  - destruct (getConnection attempt s) as [connection_ s0].
    destruct connection_ as [c|]; [|by intros [= <- <-]].
    destruct (entityListFile _) as [content|]; simpl.
    + by intros [= <- <-].
    + destruct (connection _), describeGlobal; try done.
      by intros [= <- <-].
  - intros [= <- <-]. by rewrite Hs.
  - intros [= <- <-]. by rewrite Hs.
Qed.

Lemma checkAuthStatus_known attempt describeGlobal s :
  connectStatus s ≠ UNKNOWN →
  checkAuthStatus attempt describeGlobal s = (Fulfilled (connectStatus s), s).
Proof. intros Hs. unfold checkAuthStatus. by destruct (connectStatus s). Qed.



Lemma getObjectInfo_memo_hit objectApiName objectInfo
    (net : Network ObjectInfoRepresentation) s :
  connectStatus s = CONNECTED →
  objectInfoInMemoCache s !! objectApiName = Some objectInfo →
  getObjectInfo objectApiName net s = (Fulfilled (Some objectInfo), s).
Proof.
  intros Hs Hm. unfold getObjectInfo, getObjectInfo_start.
  rewrite checkAuthStatus_known by (rewrite Hs; done). rewrite Hs.
  unfold getObjectInfo_proceed, getObjectInfoFromCache. simpl.
  by rewrite Hm.
Qed.

(** X13: when the session is connected and the object is in a cache, in
    memory or on disk, [getObjectInfo] answers with it whatever the network
    does: no promise is made and no request is sent. *)
Theorem getObjectInfo_served_from_cache objectApiName objectInfo
    (net : Network ObjectInfoRepresentation) s :
  connectStatus s = CONNECTED →
  fst (getObjectInfoFromCache objectApiName s) = Some objectInfo →
  fst (getObjectInfo objectApiName net s) = Fulfilled (Some objectInfo) ∧
  flights (snd (getObjectInfo objectApiName net s)) = flights s ∧
  objectInfoPromises (snd (getObjectInfo objectApiName net s))
  = objectInfoPromises s.
Proof.
  intros Hs Hc. unfold getObjectInfo, getObjectInfo_start.
  rewrite checkAuthStatus_known by (rewrite Hs; done). rewrite Hs.
  unfold getObjectInfo_proceed. simpl.
  destruct (getObjectInfoFromCache objectApiName s) as [r s1] eqn:Hcache.
  simpl in Hc. subst r. simpl.
  unfold getObjectInfoFromCache, fetchObjectInfoFromDisk in Hcache.
  destruct (objectInfoInMemoCache s !! objectApiName);
    [by inversion Hcache; subst|].
  destruct (objectInfoFiles s !! objectApiName); [|done].
  by inversion Hcache; subst.
Qed.

Lemma proceed_attach objectApiName h s :
  objectInfoInMemoCache s !! objectApiName = None →
  objectInfoFiles s !! objectApiName = None →
  objectInfoPromises s !! objectApiName = Some h →
  getObjectInfo_proceed objectApiName CONNECTED s = (InFlight h, s).
Proof.
  intros Hm Hd Hp.
  unfold getObjectInfo_proceed, getObjectInfoFromCache,
    fetchObjectInfoFromDisk. simpl.
  by rewrite Hm, Hd, Hp.
Qed.

Lemma resume_unlisted h connection_ objectApiName s :
  flights s !! h = Some (flight objectApiName AwaitConnection) →
  objectApiName ∉ entities s →
  executor_resume h connection_ s = set_phase _ h objectApiName Stalled s.
Proof.
  intros Hh He. unfold executor_resume. rewrite Hh.
  destruct connection_; [|done].
  by rewrite bool_decide_eq_false_2.
Qed.

(** A promise whose executor has left without resolving stays as it is. *)
Lemma stalled_stays h objectApiName response s :
  flights s !! h = Some (flight objectApiName Stalled) →
  executor_finally h (executor_respond h response s) = s ∧
  flight_outcome h s = Pending.
Proof.
  intros Hh. unfold executor_respond, executor_finally, flight_outcome.
  by rewrite Hh, Hh.
Qed.


Lemma resume_cases h connection_ objectApiName s :
  flights s !! h = Some (flight objectApiName AwaitConnection) →
  executor_resume h connection_ s
    = set_phase _ h objectApiName AwaitResponse s ∨
  executor_resume h connection_ s = set_phase _ h objectApiName Stalled s.
Proof.
  intros Hh. unfold executor_resume. rewrite Hh.
  destruct connection_; [|by right].
  destruct (bool_decide _); [by left | by right].
Qed.

Lemma respond_finally_connectStatus h response s :
  connectStatus (executor_finally h (executor_respond h response s))
  = connectStatus s.
Proof.
  assert (∀ s', connectStatus (executor_finally h s') = connectStatus s')
    as Hfin.
  { intros s'. unfold executor_finally.
    destruct (flights s' !! h) as [[n ph]|]; [|done]. by destruct ph. }
  rewrite Hfin. unfold executor_respond.
  destruct (flights s !! h) as [[n ph]|]; [|done].
  destruct ph; try done. by destruct response as [[oi|]|].
Qed.


(** X16: a change of org while a request is in flight defeats the single
    flight.  [onAuthOrgChanged] empties the table and the memory cache but
    leaves the promise running; in any later state with these tables where
    the caches do not hold the name, a connected call makes a second promise
    for the name, so that two unfinished promises of one name exist; and when
    the first one ends, its [finally] removes the entry of the second. *)
Theorem org_change_defeats_single_flight orgNameKnown folderAfter
    objectApiName h response s s1 :
  flights s !! h = Some (flight objectApiName AwaitResponse) →
  flights s1 = flights (onAuthOrgChanged orgNameKnown folderAfter s) →
  objectInfoPromises s1
    = objectInfoPromises (onAuthOrgChanged orgNameKnown folderAfter s) →
  objectInfoInMemoCache s1 !! objectApiName = None →
  objectInfoFiles s1 !! objectApiName = None →
  length (flights s) ≠ h ∧
  fst (getObjectInfo_proceed objectApiName CONNECTED s1)
    = InFlight (length (flights s)) ∧
  flights (snd (getObjectInfo_proceed objectApiName CONNECTED s1)) !! h
    = Some (flight objectApiName AwaitResponse) ∧
  flights (snd (getObjectInfo_proceed objectApiName CONNECTED s1))
    !! length (flights s)
    = Some (flight objectApiName AwaitConnection) ∧
  objectInfoPromises (snd (getObjectInfo_proceed objectApiName CONNECTED s1))
    !! objectApiName = Some (length (flights s)) ∧
  objectInfoPromises
    (executor_finally h
       (executor_respond h response
          (snd (getObjectInfo_proceed objectApiName CONNECTED s1))))
    !! objectApiName = None.
Proof.
  intros Hh Hf Hp Hm Hd.
  assert (flights s1 = flights s) as Hf1
    by (rewrite Hf; unfold onAuthOrgChanged, clearCache;
        by destruct orgNameKnown).
  assert (objectInfoPromises s1 = ∅) as Hp1
    by (rewrite Hp; unfold onAuthOrgChanged, clearCache;
        by destruct orgNameKnown).
  assert (h < length (flights s)) as Hlt by (by eapply lookup_lt_Some).
  rewrite proceed_fresh by (done || by rewrite Hp1, lookup_empty).
  simpl. rewrite Hf1.
  assert ((flights s ++ [flight objectApiName AwaitConnection]) !! h
          = Some (flight objectApiName AwaitResponse)) as Hh2
    by (by rewrite lookup_app_l).
  split; [lia|]. split; [done|]. split; [done|].
  split; [by apply list_lookup_middle|].
  split; [by rewrite lookup_insert_eq|].
  match goal with
  | |- objectInfoPromises (executor_finally h (executor_respond h _ ?s2))
         !! _ = _ =>
      destruct (respond_finally_tables _ s2 h objectApiName response Hh2)
        as (Hp' & _)
  end.
  rewrite Hp'. apply lookup_delete_eq.
Qed.

(** X17: a response to a request made before a change of org is stored
    after it: [onAuthOrgChanged] leaves the promise running, so that its
    response fills the memory cache that was just emptied, and the next call
    that finds a session is answered with this object. *)
Theorem response_after_org_change_is_cached orgNameKnown folderAfter
    objectApiName h objectInfo (net : Network ObjectInfoRepresentation) s :
  flights s !! h = Some (flight objectApiName AwaitResponse) →
  objectInfoInMemoCache (onAuthOrgChanged orgNameKnown folderAfter s)
    !! objectApiName = None ∧
  objectInfoInMemoCache
    (executor_respond h (Normal (Some objectInfo))
       (onAuthOrgChanged orgNameKnown folderAfter s))
    !! objectApiName = Some objectInfo ∧
  (fst (checkAuthStatus (auth_attempt net) (describeGlobal net)
          (executor_respond h (Normal (Some objectInfo))
             (onAuthOrgChanged orgNameKnown folderAfter s)))
   = Fulfilled CONNECTED →
   fst (getObjectInfo objectApiName net
          (executor_respond h (Normal (Some objectInfo))
             (onAuthOrgChanged orgNameKnown folderAfter s)))
   = Fulfilled (Some objectInfo)).
Proof.
  intros Hh.
  set (s0 := onAuthOrgChanged orgNameKnown folderAfter s).
  assert (flights s0 !! h = Some (flight objectApiName AwaitResponse)) as Hh0
    by (subst s0; unfold onAuthOrgChanged, clearCache;
        by destruct orgNameKnown).
  assert (objectInfoInMemoCache s0 = ∅) as Hm0
    by (subst s0; unfold onAuthOrgChanged, clearCache;
        by destruct orgNameKnown).
  split; [by rewrite Hm0, lookup_empty|].
  assert (objectInfoInMemoCache
            (executor_respond h (Normal (Some objectInfo)) s0)
            !! objectApiName = Some objectInfo) as Hm1.
  { unfold executor_respond. rewrite Hh0. simpl. apply lookup_insert_eq. }
  split; [done|].
  intros Hauth. unfold getObjectInfo, getObjectInfo_start.
  pose proof (checkAuthStatus_tables (auth_attempt net) (describeGlobal net)
                (executor_respond h (Normal (Some objectInfo)) s0))
    as (_ & _ & HmA & _).
  destruct (checkAuthStatus _ _ _) as [r sA]. simpl in Hauth, HmA. subst r.
  unfold getObjectInfo_proceed, getObjectInfoFromCache. simpl.
  by rewrite HmA, Hm1.
Qed.

End Tables.

End OrgMore.

(** * Facts about [OrgUtils] with a failing file system and a changing org *)

Module OrgSessionFacts.
Import OrgUtils OrgReset OrgSession.

Section Tables.

Variable ObjectInfoRepresentation : Type.

Local Abbreviation State := (OrgState ObjectInfoRepresentation).
Local Abbreviation flight := (@mkFlight ObjectInfoRepresentation).

Implicit Types (s : State) (h : nat) (fs : FileSystem).

Lemma waiting_running (ph : Phase ObjectInfoRepresentation) :
  waiting ph = true → running ph = true.
Proof. by destruct ph. Qed.

Lemma quiet_lookup s h f :
  quiet s = true → flights s !! h = Some f →
  running (flight_phase f) = false.
Proof.
  unfold quiet. intros Hq Hf.
  rewrite forallb_forall in Hq.
  apply list_elem_of_lookup_2, list_elem_of_In, Hq in Hf.
  by apply negb_true_iff in Hf.
Qed.

(** The invariant looks at four fields only. *)
Lemma SingleFlight_same_tables s s' :
  flights s' = flights s →
  objectInfoPromises s' = objectInfoPromises s →
  objectInfoInMemoCache s' = objectInfoInMemoCache s →
  objectInfoFiles s' = objectInfoFiles s →
  SingleFlight s → SingleFlight s'.
Proof.
  intros Hf Hp Hm Hd [Hreg Hunc]. split.
  - intros h f. rewrite Hf, Hp. apply Hreg.
  - intros h f. rewrite Hf, Hm, Hd. apply Hunc.
Qed.

(** With no promise running, the invariant says nothing. *)
Lemma SingleFlight_quiet s s' :
  flights s' = flights s → quiet s = true → SingleFlight s'.
Proof.
  intros Hf Hq. split; intros h f Hh Hr; rewrite Hf in Hh.
  - by rewrite (quiet_lookup s h f Hq Hh) in Hr.
  - apply waiting_running in Hr. by rewrite (quiet_lookup s h f Hq Hh) in Hr.
Qed.

(** It holds in a process that has made no promise yet. *)
Lemma SingleFlight_fresh s : flights s = [] → SingleFlight s.
Proof.
  intros Hnil. split; intros h f Hf; by rewrite Hnil, lookup_nil in Hf.
Qed.

Lemma SingleFlight_unique s h1 h2 f1 f2 :
  SingleFlight s →
  flights s !! h1 = Some f1 → flights s !! h2 = Some f2 →
  running (flight_phase f1) = true →
  running (flight_phase f2) = true →
  flight_name f1 = flight_name f2 →
  h1 = h2.
Proof.
  intros [Hreg _] H1 H2 U1 U2 Hname.
  pose proof (Hreg _ _ H1 U1) as R1. pose proof (Hreg _ _ H2 U2) as R2.
  rewrite Hname in R1. congruence.
Qed.

(** [getConnection] changes the connection, and the folder when the name
    of the org is assigned. *)
Lemma getConnection_fields org attempt s :
  let s' := snd (getConnection org attempt s) in
  flights s' = flights s ∧
  objectInfoPromises s' = objectInfoPromises s ∧
  objectInfoInMemoCache s' = objectInfoInMemoCache s ∧
  connectStatus s' = connectStatus s ∧
  entities s' = entities s ∧
  (org = None → objectInfoFiles s' = objectInfoFiles s).
Proof.
  unfold getConnection.
  destruct (stored_session _ s); [done|].
  destruct org as [folder|], attempt as [| |connect]; simpl; try done;
    by destruct (has_username connect).
Qed.

Lemma checkAuthStatus_resume_fields fs connection_ s :
  let s' := snd (checkAuthStatus_resume fs connection_ s) in
  flights s' = flights s ∧
  objectInfoPromises s' = objectInfoPromises s ∧
  objectInfoInMemoCache s' = objectInfoInMemoCache s ∧
  objectInfoFiles s' = objectInfoFiles s.
Proof.
  unfold checkAuthStatus_resume.
  destruct connection_ as [c|]; [|done]. simpl.
  destruct (folder_ok fs); [|done].
  destruct (entityListFile s); simpl.
  - by destruct (read_ok fs).
  - by destruct (connection s).
Qed.

Lemma checkAuthStatus_listed_fields fs describeGlobal s :
  let s' := snd (checkAuthStatus_listed fs describeGlobal s) in
  flights s' = flights s ∧
  objectInfoPromises s' = objectInfoPromises s ∧
  objectInfoInMemoCache s' = objectInfoInMemoCache s ∧
  objectInfoFiles s' = objectInfoFiles s.
Proof.
  unfold checkAuthStatus_listed.
  destruct describeGlobal as [objectList|]; [|done]. simpl.
  by destruct (write_ok fs).
Qed.

(** A lookup that finds nothing changes nothing. *)
Lemma lookup_miss fs objectApiName s s1 :
  getObjectInfoFromCache fs objectApiName s = (Normal None, s1) →
  s1 = s ∧
  folder_ok fs = true ∧
  objectInfoInMemoCache s !! objectApiName = None ∧
  objectInfoFiles s !! objectApiName = None.
Proof.
  unfold getObjectInfoFromCache, fetchObjectInfoFromDisk.
  destruct (objectInfoInMemoCache s !! objectApiName); [done|].
  destruct (folder_ok fs); [|done].
  destruct (objectInfoFiles s !! objectApiName).
  - by destruct (read_ok fs).
  - by intros [= <-].
Qed.

Lemma SingleFlight_getObjectInfoFromCache fs objectApiName s :
  SingleFlight s →
  SingleFlight (snd (getObjectInfoFromCache fs objectApiName s)).
Proof.
  intros HI. unfold getObjectInfoFromCache, fetchObjectInfoFromDisk.
  destruct (objectInfoInMemoCache s !! objectApiName); [done|].
  destruct (folder_ok fs); [|done].
  destruct (objectInfoFiles s !! objectApiName) as [objectInfo|] eqn:Hdisk;
    [|done].
  destruct (read_ok fs); [|done].
  destruct HI as [Hreg Hunc]. split; simpl; [done|].
  intros h f Hf Hu. destruct (Hunc h f Hf Hu) as [Hm Hd]. split; [|done].
  rewrite lookup_insert_ne; [done|]. intros ->. congruence.
Qed.

(** Changing the phase of a promise keeps the invariant when the promise
    does not go back. *)
Lemma SingleFlight_set_phase s h objectApiName ph ph' :
  SingleFlight s →
  flights s !! h = Some (flight objectApiName ph) →
  (running ph' = true → running ph = true) →
  (waiting ph' = true → waiting ph = true) →
  SingleFlight (set_phase _ h objectApiName ph' s).
Proof.
  intros [Hreg Hunc] Hh Hfin Hres. split; simpl.
  - intros h' f Hf Hu. destruct (decide (h = h')) as [<-|Hne].
    + rewrite list_lookup_insert_eq in Hf by (by eapply lookup_lt_Some).
      inversion Hf; subst; simpl in *.
      apply (Hreg h (flight objectApiName ph) Hh). simpl. auto.
    + rewrite list_lookup_insert_ne in Hf by done. by apply Hreg.
  - intros h' f Hf Hu. destruct (decide (h = h')) as [<-|Hne].
    + rewrite list_lookup_insert_eq in Hf by (by eapply lookup_lt_Some).
      inversion Hf; subst; simpl in *.
      apply (Hunc h (flight objectApiName ph) Hh). simpl. auto.
    + rewrite list_lookup_insert_ne in Hf by done. by apply (Hunc h').
Qed.

Lemma SingleFlight_proceed fs objectApiName connectStatus_ s :
  SingleFlight s →
  SingleFlight (snd (getObjectInfo_proceed fs objectApiName connectStatus_ s)).
Proof.
  intros HI. unfold getObjectInfo_proceed.
  destruct (decide (connectStatus_ = CONNECTED)); [|done].
  pose proof (SingleFlight_getObjectInfoFromCache fs objectApiName s HI)
    as HI1.
  destruct (getObjectInfoFromCache fs objectApiName s) as [[[oi|]|] s1] eqn:Hc;
    [done| |done].
  apply lookup_miss in Hc as (-> & _ & Hm & Hd).
  destruct (objectInfoPromises s !! objectApiName) as [h|] eqn:Hp; [done|].
  destruct HI as [Hreg Hunc]. split; simpl.
  - intros h f Hf Hu.
    apply lookup_app_Some in Hf as [Hf|[Hlen Hf]].
    + pose proof (Hreg h f Hf Hu) as Hr.
      rewrite lookup_insert_ne; [done|]. intros Heq.
      rewrite <- Heq in Hr. congruence.
    + destruct (h - length (flights s)) as [|k] eqn:Hk; simpl in Hf; [|done].
      inversion Hf; subst; simpl.
      rewrite lookup_insert_eq. f_equal. lia.
  - intros h f Hf Hu.
    apply lookup_app_Some in Hf as [Hf|[Hlen Hf]]; [by apply (Hunc h)|].
    destruct (h - length (flights s)) as [|k] eqn:Hk; simpl in Hf; [|done].
    by inversion Hf; subst.
Qed.

Lemma SingleFlight_resume h connection_ s :
  SingleFlight s → SingleFlight (executor_resume h connection_ s).
Proof.
  intros HI. unfold executor_resume.
  destruct (flights s !! h) as [[objectApiName ph]|] eqn:Hh; [|done].
  destruct ph; try done.
  destruct connection_ as [c|];
    [destruct (bool_decide (objectApiName ∈ entities s))|];
    by apply (SingleFlight_set_phase s h objectApiName AwaitConnection).
Qed.

(** The callback changes the caches at its own name only. *)
Lemma objectInfoResponseCallback_fields fs objectApiName objectInfo s :
  let s' := snd (objectInfoResponseCallback fs objectApiName objectInfo s) in
  flights s' = flights s ∧
  objectInfoPromises s' = objectInfoPromises s ∧
  connectStatus s' = connectStatus s ∧
  objectInfoInMemoCache s'
    = <[objectApiName := objectInfo]> (objectInfoInMemoCache s) ∧
  (∀ other, other ≠ objectApiName →
     objectInfoFiles s' !! other = objectInfoFiles s !! other).
Proof.
  unfold objectInfoResponseCallback. simpl.
  destruct (folder_ok fs); [|done].
  destruct (objectInfoFiles s !! objectApiName);
    [destruct (unlink_ok fs); [|done]|];
    destruct (write_ok fs); simpl; repeat split; try done;
    intros other Hne;
    by rewrite ?lookup_insert_ne, ?lookup_delete_ne.
Qed.

Lemma SingleFlight_respond fs h response s :
  SingleFlight s → SingleFlight (executor_respond fs h response s).
Proof.
  intros HI. unfold executor_respond.
  destruct (flights s !! h) as [[objectApiName ph]|] eqn:Hh; [|done].
  destruct ph; try done.
  destruct response as [[objectInfo|]|];
    try by apply (SingleFlight_set_phase s h objectApiName AwaitResponse).
  pose proof (objectInfoResponseCallback_fields fs objectApiName objectInfo s)
    as (Hf & Hp & _ & Hm & Hd).
  assert (∀ v, SingleFlight
                 (set_phase _ h objectApiName (Resolved v)
                    (snd (objectInfoResponseCallback fs objectApiName
                            objectInfo s)))) as Hgoal.
  { intros v. pose proof HI as [Hreg Hunc]. split; simpl.
    - intros h' f Hh' Hu. rewrite Hf in Hh'. rewrite Hp.
      destruct (decide (h = h')) as [<-|Hne].
      + rewrite list_lookup_insert_eq in Hh' by (by eapply lookup_lt_Some).
        inversion Hh'; subst; simpl. by apply (Hreg h _ Hh).
      + rewrite list_lookup_insert_ne in Hh' by done. by apply Hreg.
    - intros h' f Hh' Hu. rewrite Hf in Hh'.
      destruct (decide (h = h')) as [<-|Hne].
      + rewrite list_lookup_insert_eq in Hh' by (by eapply lookup_lt_Some).
        by inversion Hh'; subst.
      + rewrite list_lookup_insert_ne in Hh' by done.
        assert (flight_name f ≠ objectApiName) as Hname.
        { intros Heq. apply Hne. symmetry.
          apply (SingleFlight_unique s h' h f
                   (flight objectApiName AwaitResponse)); try done.
          by apply waiting_running. }
        destruct (Hunc h' f Hh' Hu) as [Hm0 Hd0].
        rewrite Hm, Hd by done. by rewrite lookup_insert_ne. }
  destruct (objectInfoResponseCallback fs objectApiName objectInfo s)
    as [[u|] s1]; apply Hgoal.
Qed.

Lemma SingleFlight_finally h s :
  SingleFlight s → SingleFlight (executor_finally h s).
Proof.
  intros HI. unfold executor_finally.
  destruct (flights s !! h) as [[objectApiName ph]|] eqn:Hh; [|done].
  destruct ph as [| | |v|v]; try done.
  pose proof HI as [Hreg Hunc]. split; simpl.
  - intros h' f Hf Hu. destruct (decide (h = h')) as [<-|Hne].
    + rewrite list_lookup_insert_eq in Hf by (by eapply lookup_lt_Some).
      by inversion Hf; subst.
    + rewrite list_lookup_insert_ne in Hf by done.
      rewrite lookup_delete_ne; [by apply Hreg|].
      intros Heq. apply Hne.
      by apply (SingleFlight_unique s h h' (flight objectApiName (Resolved v))
                  f).
  - intros h' f Hf Hu. destruct (decide (h = h')) as [<-|Hne].
    + rewrite list_lookup_insert_eq in Hf by (by eapply lookup_lt_Some).
      by inversion Hf; subst.
    + rewrite list_lookup_insert_ne in Hf by done. by apply (Hunc h').
Qed.

Lemma onAuthOrgChanged_flights orgNameKnown
    (folderAfter : Folder ObjectInfoRepresentation) s :
  flights (onAuthOrgChanged orgNameKnown folderAfter s) = flights s.
Proof. unfold onAuthOrgChanged, clearCache. by destruct orgNameKnown. Qed.

Lemma SingleFlight_step s (e : Event ObjectInfoRepresentation) :
  SingleFlight s →
  (changes_org e = true → quiet s = true) →
  SingleFlight (step s e).
Proof.
  intros HI Hq.
  destruct e as [org|attempt|fs connection_|fs listed|fs name st|h connection_
                |fs h response|h|orgNameKnown folderAfter]; simpl.
  - by apply (SingleFlight_quiet s); [|apply Hq].
  - pose proof (getConnection_fields None attempt s)
      as (Hf & Hp & Hm & _ & _ & Hd).
    apply (SingleFlight_same_tables s); auto.
  - pose proof (checkAuthStatus_resume_fields fs connection_ s)
      as (Hf & Hp & Hm & Hd).
    by apply (SingleFlight_same_tables s).
  - pose proof (checkAuthStatus_listed_fields fs listed s)
      as (Hf & Hp & Hm & Hd).
    by apply (SingleFlight_same_tables s).
  - by apply SingleFlight_proceed.
  - by apply SingleFlight_resume.
  - by apply SingleFlight_respond.
  - by apply SingleFlight_finally.
  - apply (SingleFlight_quiet s); [apply onAuthOrgChanged_flights | by apply Hq].
Qed.

(** The invariant holds after any interleaving that keeps the org while
    promises run. *)
Lemma SingleFlight_run (es : list (Event ObjectInfoRepresentation)) s :
  SingleFlight s → org_kept es s = true → SingleFlight (run es s).
Proof.
  revert s. induction es as [|e es IH]; intros s HI Hk; [done|].
  simpl in Hk. apply andb_true_iff in Hk as [Hq Hk].
  simpl. apply IH; [|done].
  apply SingleFlight_step; [done|]. intros He. by rewrite He in Hq.
Qed.

(** A call for a name whose promise is in the table and that no cache
    holds gets this promise, and changes nothing; when
    [objectInfoFolderPath()] throws it is rejected, and changes nothing
    either. *)
Lemma proceed_joins fs objectApiName connectStatus_ h s :
  objectInfoInMemoCache s !! objectApiName = None →
  objectInfoFiles s !! objectApiName = None →
  objectInfoPromises s !! objectApiName = Some h →
  getObjectInfo_proceed fs objectApiName connectStatus_ s
  = (if decide (connectStatus_ = CONNECTED) then
       if folder_ok fs then InFlight h else Immediate Rejected
     else Immediate (Fulfilled None),
     s).
Proof.
  intros Hm Hd Hp.
  unfold getObjectInfo_proceed, getObjectInfoFromCache,
    fetchObjectInfoFromDisk.
  destruct (decide (connectStatus_ = CONNECTED)); [|done].
  rewrite Hm. destruct (folder_ok fs); [|done].
  by rewrite Hd, Hp.
Qed.

(** A call for a name that is neither cached nor in the table of promises
    makes a new promise, at the end of [flights]. *)
Lemma proceed_starts fs objectApiName s :
  folder_ok fs = true →
  objectInfoInMemoCache s !! objectApiName = None →
  objectInfoFiles s !! objectApiName = None →
  objectInfoPromises s !! objectApiName = None →
  getObjectInfo_proceed fs objectApiName CONNECTED s
  = (InFlight (length (flights s)),
     set_promises _
       (<[objectApiName := length (flights s)]> (objectInfoPromises s))
       (set_flights _ (flights s ++ [flight objectApiName AwaitConnection])
          s)).
Proof.
  intros Hfs Hm Hd Hp.
  unfold getObjectInfo_proceed, getObjectInfoFromCache,
    fetchObjectInfoFromDisk. simpl.
  by rewrite Hm, Hfs, Hd, Hp.
Qed.

(** What the end of a request leaves behind. *)
Lemma request_end_tables fs s h objectApiName response :
  flights s !! h = Some (flight objectApiName AwaitResponse) →
  let s' := executor_finally h (executor_respond fs h response s) in
  objectInfoPromises s' = delete objectApiName (objectInfoPromises s) ∧
  (∃ v, flights s' = <[h := flight objectApiName (Done v)]> (flights s) ∧
        (response_value response = None → v = None)) ∧
  objectInfoInMemoCache s'
    = match response_value response with
      | Some objectInfo =>
          <[objectApiName := objectInfo]> (objectInfoInMemoCache s)
      | None => objectInfoInMemoCache s
      end ∧
  (response_value response = None → objectInfoFiles s' = objectInfoFiles s).
Proof.
  intros Hh. assert (h < length (flights s)) by (by eapply lookup_lt_Some).
  unfold executor_respond. rewrite Hh.
  destruct response as [[objectInfo|]|]; simpl.
  - pose proof (objectInfoResponseCallback_fields fs objectApiName objectInfo
                  s) as (Hf & Hp & _ & Hm & _).
    destruct (objectInfoResponseCallback fs objectApiName objectInfo s)
      as [[u|] s1]; simpl in *;
      unfold executor_finally; simpl;
      rewrite list_lookup_insert_eq by (by rewrite Hf); simpl;
      rewrite list_insert_insert_eq, Hf, Hp, Hm;
      (split; [done|]); (split; [eexists; split; [done|done]|]); done.
  - unfold executor_finally; simpl.
    rewrite list_lookup_insert_eq by done; simpl.
    rewrite list_insert_insert_eq. repeat split; eauto.
  - unfold executor_finally; simpl.
    rewrite list_lookup_insert_eq by done; simpl.
    rewrite list_insert_insert_eq. repeat split; eauto.
Qed.

Lemma flight_outcome_never_rejected h s :
  flight_outcome h s
  ≠ (Rejected : Promise (option ObjectInfoRepresentation)).
Proof.
  unfold flight_outcome.
  destruct (flights s !! h) as [[n ph]|]; [|done]. by destruct ph.
Qed.

Lemma flight_outcome_undefined fs s h objectApiName response :
  flights s !! h = Some (flight objectApiName AwaitResponse) →
  response_value response = None →
  flight_outcome h (executor_finally h (executor_respond fs h response s))
  = Fulfilled None.
Proof.
  intros Hh Hv. assert (h < length (flights s)) by (by eapply lookup_lt_Some).
  destruct (request_end_tables fs s h objectApiName response Hh)
    as (_ & (v & Hf & Hnone) & _).
  unfold flight_outcome. rewrite Hf.
  rewrite list_lookup_insert_eq by done. by rewrite Hnone.
Qed.

Lemma checkAuthStatus_guard (out : Outside ObjectInfoRepresentation) s :
  connectStatus s ≠ UNKNOWN →
  checkAuthStatus out s = (Fulfilled (connectStatus s), s).
Proof. intros Hs. unfold checkAuthStatus. by destruct (connectStatus s). Qed.

(** C9, amended: the promise of [getObjectInfo] is fulfilled with
    [undefined] (it is not rejected, and it does not stay pending) when no
    session can be opened, that is when none was opened before and
    [getConnection] gives [undefined], and when the request for the object is
    rejected; whatever the file system does. *)
Theorem getObjectInfo_undefined_when_unavailable objectApiName
    (out : Outside ObjectInfoRepresentation) s :
  (connectStatus s ≠ CONNECTED →
   fst (getConnection (auth_org out) (auth_attempt out) s) = None →
   fst (getObjectInfo objectApiName out s) = Fulfilled None) ∧
  (∀ h s1,
     getObjectInfo_start objectApiName out s = (Fulfilled (InFlight h), s1) →
     flights s1 !! h = Some (flight objectApiName AwaitResponse) →
     response out = Throw →
     fst (getObjectInfo objectApiName out s) = Fulfilled None ∧
     objectInfoPromises (snd (getObjectInfo objectApiName out s))
       !! objectApiName = None).
Proof.
  split.
  - intros Hstatus Hconn.
    unfold getObjectInfo, getObjectInfo_start, checkAuthStatus.
    destruct (connectStatus s) eqn:Hs; [|done|].
    + destruct (getConnection (auth_org out) (auth_attempt out) s)
        as [connection_ s1].
      simpl in Hconn. subst connection_. done.
    + done.
  - intros h s1 Hstart Hh Hthrow. unfold getObjectInfo.
    rewrite Hstart, Hthrow. simpl. split.
    + by rewrite (flight_outcome_undefined _ s1 h objectApiName Throw Hh).
    + destruct (request_end_tables (callback_fs out) s1 h objectApiName
                  Throw Hh) as (Hp & _).
      rewrite Hp. apply lookup_delete_eq.
Qed.



(** X24: [getObjectInfo] is rejected before it makes its promise, or not
    at all: exactly when [checkAuthStatus] is rejected, or when the session is
    connected and the lookup in the caches throws.  Once the promise is made,
    a failure of the request or of the file system gives [undefined] or a
    promise that stays pending, never a rejection. *)
Theorem getObjectInfo_rejected_before_promise objectApiName
    (out : Outside ObjectInfoRepresentation) s :
  (fst (getObjectInfo objectApiName out s) = Rejected
   ↔ fst (checkAuthStatus out s) = Rejected ∨
     (fst (checkAuthStatus out s) = Fulfilled CONNECTED ∧
      fst (getObjectInfoFromCache (lookup_fs out) objectApiName
             (snd (checkAuthStatus out s))) = Throw)) ∧
  (∀ h s1,
     getObjectInfo_start objectApiName out s = (Fulfilled (InFlight h), s1) →
     fst (getObjectInfo objectApiName out s) ≠ Rejected).
Proof.
  split.
  - unfold getObjectInfo, getObjectInfo_start.
    destruct (checkAuthStatus out s) as [[st| |] sA]; simpl;
      [|by split; auto|].
    + unfold getObjectInfo_proceed.
      destruct (decide (st = CONNECTED)) as [->|Hst].
      * destruct (getObjectInfoFromCache (lookup_fs out) objectApiName sA)
          as [[[oi|]|] sC]; simpl.
        -- split; [done|]. by intros [|[_ ?]].
        -- split; [|by intros [|[_ ?]]].
           destruct (objectInfoPromises sC !! objectApiName) as [h|]; simpl.
           ++ destruct (flights sC !! h) as [[n ph]|]; simpl.
              ** destruct ph; simpl;
                   try (intros Habs;
                        by apply flight_outcome_never_rejected in Habs).
                 destruct (getConnection (executor_org out)
                             (executor_attempt out) sC). simpl.
                 intros Habs. by apply flight_outcome_never_rejected in Habs.
              ** intros Habs. by apply flight_outcome_never_rejected in Habs.
           ++ rewrite list_lookup_middle by done. simpl.
              destruct (getConnection (executor_org out)
                          (executor_attempt out) _). simpl.
              intros Habs. by apply flight_outcome_never_rejected in Habs.
        -- split; auto.
      * simpl. split; [done|]. intros [|[? _]]; [done|]. congruence.
    + split; [done|]. by intros [|[? _]].
  - intros h s1 Hstart. unfold getObjectInfo. rewrite Hstart. simpl.
    apply flight_outcome_never_rejected.
Qed.


(** ** The calls of [OrgUtils] when the file system works

    With a working file system and an org whose name is not assigned
    again, the calls are those of module [OrgUtils]. *)

Lemma callback_works fs objectApiName objectInfo s :
  works fs →
  objectInfoResponseCallback fs objectApiName objectInfo s
  = (Normal tt, OrgUtils.objectInfoResponseCallback objectApiName objectInfo s).
Proof.
  intros (Hf & _ & Hu & Hw).
  unfold objectInfoResponseCallback, OrgUtils.objectInfoResponseCallback.
  rewrite Hf, Hu, Hw. simpl.
  destruct (objectInfoFiles s !! objectApiName); [|done].
  simpl. by rewrite insert_delete_eq.
Qed.

Lemma cache_works fs objectApiName s :
  works fs →
  getObjectInfoFromCache fs objectApiName s
  = (Normal (fst (OrgUtils.getObjectInfoFromCache objectApiName s)),
     snd (OrgUtils.getObjectInfoFromCache objectApiName s)).
Proof.
  intros (Hf & Hr & _ & _).
  unfold getObjectInfoFromCache, OrgUtils.getObjectInfoFromCache,
    fetchObjectInfoFromDisk, OrgUtils.fetchObjectInfoFromDisk.
  rewrite Hf, Hr.
  destruct (objectInfoInMemoCache s !! objectApiName); [done|].
  by destruct (objectInfoFiles s !! objectApiName).
Qed.

Lemma proceed_works fs objectApiName connectStatus_ s :
  works fs →
  getObjectInfo_proceed fs objectApiName connectStatus_ s
  = OrgUtils.getObjectInfo_proceed objectApiName connectStatus_ s.
Proof.
  intros Hw. unfold getObjectInfo_proceed, OrgUtils.getObjectInfo_proceed.
  destruct (decide _); [|done]. rewrite cache_works by done.
  by destruct (OrgUtils.getObjectInfoFromCache objectApiName s) as [[oi|] s1].
Qed.

Lemma respond_works fs h response s :
  works fs →
  executor_respond fs h response s = OrgUtils.executor_respond h response s.
Proof.
  intros Hw. unfold executor_respond, OrgUtils.executor_respond.
  destruct (flights s !! h) as [[n ph]|]; [|done]. destruct ph; try done.
  destruct response as [[oi|]|]; try done. by rewrite callback_works.
Qed.

Lemma getConnection_same_org attempt s :
  getConnection None attempt s = OrgUtils.getConnection attempt s.
Proof. done. Qed.

Lemma checkAuthStatus_works (out : Outside ObjectInfoRepresentation) s :
  works (auth_fs out) → auth_org out = None →
  checkAuthStatus out s
  = OrgUtils.checkAuthStatus (auth_attempt out) (describeGlobal out) s.
Proof.
  intros (Hf & Hr & _ & Hw) Ho.
  unfold checkAuthStatus, OrgUtils.checkAuthStatus.
  destruct (connectStatus s); [|done|done].
  rewrite Ho, getConnection_same_org.
  destruct (OrgUtils.getConnection (auth_attempt out) s) as [c s1].
  unfold checkAuthStatus_resume, checkAuthStatus_listed. rewrite Hf, Hr, Hw.
  destruct c; [|done]. simpl.
  destruct (entityListFile s1); [done|].
  destruct (connection s1); [|done]. by destruct (describeGlobal out).
Qed.

Lemma getObjectInfo_works objectApiName
    (out : Outside ObjectInfoRepresentation) s :
  works (auth_fs out) → works (lookup_fs out) → works (callback_fs out) →
  auth_org out = None → executor_org out = None →
  getObjectInfo objectApiName out s
  = OrgUtils.getObjectInfo objectApiName
      (mkNetwork (auth_attempt out) (describeGlobal out)
         (executor_attempt out) (response out)) s.
Proof.
  intros Ha Hl Hc Hao Heo.
  unfold getObjectInfo, OrgUtils.getObjectInfo, getObjectInfo_start,
    OrgUtils.getObjectInfo_start. simpl.
  rewrite checkAuthStatus_works by done.
  destruct (OrgUtils.checkAuthStatus (auth_attempt out) (describeGlobal out)
              s) as [[st| |] s1]; [|done|done].
  rewrite proceed_works by done.
  destruct (OrgUtils.getObjectInfo_proceed objectApiName st s1)
    as [[p|h] s2]; [done|].
  rewrite Heo, getConnection_same_org.
  destruct (flights s2 !! h) as [[n ph]|]; [|by rewrite respond_works].
  destruct ph; try by rewrite respond_works.
  destruct (OrgUtils.getConnection (executor_attempt out) s2) as [c s3].
  by rewrite respond_works.
Qed.

End Tables.

(** ** The theorems at concrete sessions *)

Import OrgExamples SessionExamples.

Lemma SingleFlight_ex_init : SingleFlight ex_init.
Proof. by apply SingleFlight_fresh. Qed.

(** C9, as stated, fails: a session is opened, the status is set to
    [CONNECTED], and [connection.describeGlobal()] fails; the [await] of line
    130 is outside any [try], so that [checkAuthStatus] and with it
    [getObjectInfo] are rejected. *)
Lemma getObjectInfo_rejected_when_entity_list_fails :
  fst (getConnection (auth_org ex_out_list_fails)
         (auth_attempt ex_out_list_fails) ex_init) = Some ex_connection ∧
  describeGlobal ex_out_list_fails = Throw ∧
  works (auth_fs ex_out_list_fails) ∧
  fst (getObjectInfo "Account" ex_out_list_fails ex_init) = Rejected.
Proof. repeat split. Qed.

Lemma getObjectInfo_undefined_when_unavailable_witness :
  (connectStatus ex_init ≠ CONNECTED ∧
   fst (getConnection (auth_org ex_out_no_session)
          (auth_attempt ex_out_no_session) ex_init) = None) ∧
  fst (getObjectInfo "Account" ex_out_no_session ex_init) = Fulfilled None ∧
  response ex_out_request_fails = Throw ∧
  fst (getObjectInfo "Account" ex_out_request_fails ex_init)
    = Fulfilled None.
Proof.
  split; [split; [discriminate | reflexivity]|]. split.
  - apply (proj1 (getObjectInfo_undefined_when_unavailable string "Account"
                    ex_out_no_session ex_init));
      [discriminate | reflexivity].
  - split; [reflexivity|].
    exact (proj1 (proj2 (getObjectInfo_undefined_when_unavailable string
                           "Account" ex_out_request_fails ex_init)
                    0 _ eq_refl eq_refl eq_refl)).
Defined.




Lemma getObjectInfo_rejected_before_promise_witness :
  getObjectInfo_start "Account" ex_out_object_not_written ex_init
    = (Fulfilled (InFlight 0),
       snd (getObjectInfo_start "Account" ex_out_object_not_written ex_init)) ∧
  fst (getObjectInfo "Account" ex_out_object_not_written ex_init) ≠ Rejected ∧
  fst (getObjectInfo "Account" ex_out_object_not_read ex_init) = Rejected.
Proof.
  split; [reflexivity|]. split.
  - exact (proj2 (getObjectInfo_rejected_before_promise string "Account"
                    ex_out_object_not_written ex_init) 0 _ eq_refl).
  - apply (proj1 (getObjectInfo_rejected_before_promise string "Account"
                    ex_out_object_not_read ex_init)).
    right. split; reflexivity.
Defined.

(** Other ends of a call: when the response arrives but its file cannot be
    written, the promise is resolved with [undefined] although the object is
    in the memory cache; and a file of the object that cannot be read
    rejects the call. *)
Remark getObjectInfo_file_system_ends :
  fst (getObjectInfo "Account" ex_out_object_not_written ex_init)
    = Fulfilled None ∧
  objectInfoInMemoCache
    (snd (getObjectInfo "Account" ex_out_object_not_written ex_init))
    !! "Account" = Some "Account: Name, Phone" ∧
  fst (getObjectInfo "Account" ex_out_object_not_read ex_init) = Rejected ∧
  fst (getObjectInfo "Account" ex_out_list_not_written ex_init) = Rejected.
Proof. repeat split. Qed.

End OrgSessionFacts.

(** * Facts about [transformYamlToObject] *)

Module YamlFacts.
Import YamlParser.

Lemma assign_proto key value (result : gmap string (list string)) :
  assign key value result !! "__proto__" = result !! "__proto__".
Proof.
  unfold assign. destruct (decide (key = "__proto__")) as [->|Hne]; [done|].
  by rewrite lookup_insert_ne.
Qed.

Lemma own_property_None prop (properties : list (string * Yaml)) :
  prop ∉ properties.*1 → own_property prop properties = None.
Proof.
  induction properties as [|[k v] rest IH]; simpl; [done|].
  intros Hnot. apply not_elem_of_cons in Hnot as [Hne Hrest].
  destruct (decide (k = prop)) as [->|_]; [done|]. by apply IH.
Qed.

(** The loop succeeds exactly when every value is an array of strings. *)
Lemma fill_Returned_iff entries (acc : gmap string (list string)) :
  (∃ result, fill entries acc = Returned result)
  ↔ Forall (λ kv, is_Some (array_of_strings kv.2)) entries.
Proof.
  revert acc. induction entries as [|[k v] rest IH]; intros acc; simpl.
  - split; [by constructor | by eexists].
  - destruct (array_of_strings v) as [strings|] eqn:Hv.
    + rewrite IH. split.
      * intros Hrest. constructor; [by simpl; rewrite Hv|done].
      * by inversion 1.
    + split; [by intros [? ?]|].
      inversion 1 as [|? ? [? Hs]]; subst. simpl in Hs. congruence.
Qed.

Lemma fill_first_error good key value rest
    (acc : gmap string (list string)) :
  Forall (λ kv, is_Some (array_of_strings kv.2)) good →
  array_of_strings value = None →
  fill (good ++ (key, value) :: rest) acc = Thrown (NotAnArrayOfStrings key).
Proof.
  intros Hgood Hbad. revert acc.
  induction Hgood as [|[k v] good [strings Hs] Hgood IH]; intros acc; simpl.
  - by rewrite Hbad.
  - simpl in Hs. rewrite Hs. apply IH.
Qed.

Lemma fill_lookup entries (acc result : gmap string (list string)) :
  NoDup entries.*1 →
  fill entries acc = Returned result →
  result !! "__proto__" = acc !! "__proto__" ∧
  ∀ key,
    key ≠ "__proto__" →
    result !! key
    = match own_property key entries with
      | Some value => array_of_strings value
      | None => acc !! key
      end.
Proof.
  revert acc. induction entries as [|[k v] rest IH]; intros acc Hnd; simpl.
  - by intros [= <-].
  - apply NoDup_cons in Hnd as [Hk Hnd].
    destruct (array_of_strings v) as [strings|] eqn:Hv; [|done].
    intros Hfill. destruct (IH _ Hnd Hfill) as [Hproto Hkeys].
    split; [by rewrite Hproto, assign_proto|].
    intros key Hkey. rewrite (Hkeys key Hkey).
    destruct (decide (k = key)) as [->|Hne].
    + rewrite own_property_None by done.
      unfold assign. rewrite decide_False by done.
      by rewrite lookup_insert_eq.
    + destruct (own_property key rest); [done|].
      unfold assign. destruct (decide (k = "__proto__")); [done|].
      by rewrite lookup_insert_ne.
Qed.

Section Transform.

Variable parse : string → Completion Yaml.
Variable Object_prototype_has : string → bool.
Variable Array_prototype_has : string → bool.

Local Abbreviation transform :=
  (transformYamlToObject parse Object_prototype_has Array_prototype_has).

Lemma transform_level yamlContent designatedLevelProperty properties level :
  parse yamlContent = Normal (YMap properties) →
  own_property designatedLevelProperty properties = Some (YMap level) →
  transform yamlContent designatedLevelProperty = fill level ∅.
Proof.
  intros Hparse Hown. unfold transformYamlToObject.
  rewrite Hparse. simpl. by rewrite Hown.
Qed.

(** X18: when every property of the designated level is a list of
    strings, the result holds each of them under its key: looking a key up
    gives the strings of the YAML list of that key, and nothing for a key the
    level does not have.  The key [__proto__] is the exception: it is never a
    property of the result. *)
Theorem transformYamlToObject_result yamlContent designatedLevelProperty
    properties level :
  parse yamlContent = Normal (YMap properties) →
  own_property designatedLevelProperty properties = Some (YMap level) →
  NoDup level.*1 →
  Forall (λ kv, is_Some (array_of_strings kv.2)) level →
  ∃ result,
    transform yamlContent designatedLevelProperty = Returned result ∧
    result !! "__proto__" = None ∧
    ∀ key,
      key ≠ "__proto__" →
      result !! key = own_property key level ≫= array_of_strings.
Proof.
  intros Hparse Hown Hnd Hall.
  rewrite (transform_level _ _ _ _ Hparse Hown).
  apply (fill_Returned_iff level ∅) in Hall as [result Hfill].
  exists result. split; [done|].
  destruct (fill_lookup _ _ _ Hnd Hfill) as [Hproto Hkeys].
  split; [by rewrite Hproto, lookup_empty|].
  intros key Hkey. rewrite (Hkeys key Hkey).
  destruct (own_property key level); [done|]. by rewrite lookup_empty.
Qed.

(** X19: the result is all or nothing: [transformYamlToObject] returns
    exactly when every property of the designated level is a list of strings;
    otherwise it throws, naming the first property, in the order of the
    entries, that is not one. *)
Theorem transformYamlToObject_all_or_nothing yamlContent
    designatedLevelProperty properties level :
  parse yamlContent = Normal (YMap properties) →
  own_property designatedLevelProperty properties = Some (YMap level) →
  ((∃ result, transform yamlContent designatedLevelProperty = Returned result)
   ↔ Forall (λ kv, is_Some (array_of_strings kv.2)) level) ∧
  (∀ good key value rest,
     level = good ++ (key, value) :: rest →
     Forall (λ kv, is_Some (array_of_strings kv.2)) good →
     array_of_strings value = None →
     transform yamlContent designatedLevelProperty
     = Thrown (NotAnArrayOfStrings key)).
Proof.
  intros Hparse Hown.
  rewrite (transform_level _ _ _ _ Hparse Hown). split.
  - apply fill_Returned_iff.
  - intros good key value rest -> Hgood Hbad. by apply fill_first_error.
Qed.

(** X20: when the document is a mapping without the designated property,
    [transformYamlToObject] throws the error that names the property, unless
    the name is one that every object inherits (such as [toString]): the [in]
    test then holds, and the empty result is returned. *)
Theorem transformYamlToObject_missing_level yamlContent
    designatedLevelProperty properties :
  parse yamlContent = Normal (YMap properties) →
  own_property designatedLevelProperty properties = None →
  transform yamlContent designatedLevelProperty
  = if Object_prototype_has designatedLevelProperty
    then Returned ∅
    else Thrown (DesignatedLevelNotFound designatedLevelProperty).
Proof.
  intros Hparse Hown. unfold transformYamlToObject.
  rewrite Hparse. simpl. rewrite Hown.
  by destruct (Object_prototype_has designatedLevelProperty).
Qed.

End Transform.

End YamlFacts.

(** * Facts about the code actions *)

Module ServerFacts.
Import ValidateGraphql Server.

Lemma elem_of_Set_add x y (s : list string) :
  y ∈ Set_add x s ↔ y ∈ s ∨ y = x.
Proof.
  unfold Set_add. case_bool_decide as Hin.
  - split; [by left|]. by intros [?| ->].
  - rewrite elem_of_app, list_elem_of_singleton. done.
Qed.

Lemma NoDup_Set_add x (s : list string) : NoDup s → NoDup (Set_add x s).
Proof.
  intros Hnd. unfold Set_add. case_bool_decide as Hin; [done|].
  apply NoDup_app. split; [done|]. split.
  - intros y Hy Hx. apply list_elem_of_singleton in Hx as ->. done.
  - apply NoDup_singleton.
Qed.

Lemma foldl_Set_add (acc l : list string) :
  NoDup acc →
  NoDup (foldl (λ s x, Set_add x s) acc l) ∧
  (∀ y, y ∈ foldl (λ s x, Set_add x s) acc l ↔ y ∈ acc ∨ y ∈ l) ∧
  (NoDup (acc ++ l) → foldl (λ s x, Set_add x s) acc l = acc ++ l).
Proof.
  revert acc. induction l as [|x l IH]; intros acc Hnd; simpl.
  - split; [done|]. split.
    + intros y. rewrite elem_of_nil. tauto.
    + by rewrite app_nil_r.
  - destruct (IH (Set_add x acc) (NoDup_Set_add x acc Hnd))
      as (Hnd' & Hin' & Hid').
    split; [done|]. split.
    + intros y. rewrite Hin', elem_of_Set_add, elem_of_cons. tauto.
    + intros Hall.
      assert (x ∉ acc) as Hx.
      { apply NoDup_app in Hall as (_ & Hdisj & _).
        intros Hin. apply (Hdisj x Hin). apply list_elem_of_here. }
      assert (Set_add x acc = acc ++ [x]) as Hadd
        by (unfold Set_add; by rewrite bool_decide_eq_false_2).
      rewrite Hadd in *. rewrite Hid'; [by rewrite <- app_assoc|].
      by rewrite <- app_assoc.
Qed.

Section Handlers.

Variable updateDiagnosticsSettingCommand : string.
Variable suppressByRuleId_setting : list string.

Local Abbreviation push :=
  (pushActions updateDiagnosticsSettingCommand suppressByRuleId_setting).
Local Abbreviation codeActions :=
  (onCodeAction updateDiagnosticsSettingCommand suppressByRuleId_setting).

Lemma foldl_pushActions result ds :
  foldl push result ds = result ++ (ds ≫= push []).
Proof.
  revert result. induction ds as [|d ds IH]; intros result; simpl.
  - by rewrite app_nil_r.
  - rewrite IH. unfold pushActions. simpl. by rewrite <- !app_assoc.
Qed.

Lemma length_pushed ds : length (ds ≫= push []) = 2 * length ds.
Proof.
  induction ds as [|d ds IH]; [done|].
  change ((d :: ds) ≫= push []) with (push [] d ++ (ds ≫= push [])).
  rewrite length_app, IH. simpl. lia.
Qed.

Lemma lookup_pushed ds i d :
  ds !! i = Some d →
  (ds ≫= push []) !! (2 * i) = push [] d !! 0 ∧
  (ds ≫= push []) !! (2 * i + 1) = push [] d !! 1.
Proof.
  revert i. induction ds as [|d0 ds IH]; intros i Hi; [done|].
  destruct i as [|i]; simpl in Hi.
  - by inversion Hi; subst.
  - destruct (IH i Hi) as [H0 H1].
    replace (2 * S i) with (S (S (2 * i))) by lia.
    replace (S (S (2 * i)) + 1) with (S (S (2 * i + 1))) by lia.
    done.
Qed.

(** X21: [onCodeAction] answers [undefined] exactly when the document is
    not in the cache or no diagnostic is given; otherwise it gives two actions
    for each diagnostic, in the order of the diagnostics: first the one that
    suppresses its rule, then the one that suppresses everything, both quick
    fixes attached to this diagnostic alone. *)
Theorem onCodeAction_two_actions_each documentCache params_uri ds :
  (onCodeAction updateDiagnosticsSettingCommand suppressByRuleId_setting
     documentCache params_uri ds = None
   ↔ documentCache !! params_uri = None ∨ ds = []) ∧
  (∀ l,
     onCodeAction updateDiagnosticsSettingCommand suppressByRuleId_setting
       documentCache params_uri ds = Some l →
     length l = 2 * length ds ∧
     ∀ i d,
       ds !! i = Some d →
       ∃ suppressThis suppressAll,
         l !! (2 * i) = Some suppressThis ∧
         l !! (2 * i + 1) = Some suppressAll ∧
         diagnostics suppressThis = [d] ∧
         diagnostics suppressAll = [d] ∧
         kind suppressThis = QuickFix ∧
         kind suppressAll = QuickFix ∧
         title suppressThis = "Suppress such diagnostic: " +:+ data d ∧
         arguments (action_command suppressAll) = [UpdateSuppressAll true]).
Proof.
  unfold onCodeAction. split.
  - destruct (documentCache !! params_uri) as [document|].
    + destruct ds as [|d ds]; simpl.
      * split; [by right | done].
      * split; [done | by intros [?|?]].
    + split; [by left | done].
  - intros l. destruct (documentCache !! params_uri) as [document|]; [|done].
    destruct (length ds =? 0); [done|]. intros [= <-].
    rewrite foldl_pushActions, app_nil_l. split.
    + apply length_pushed.
    + intros i d Hi. destruct (lookup_pushed ds i d Hi) as [H0 H1].
      rewrite H0, H1. eexists _, _. repeat split.
Qed.

(** X22: the list of rule ids that the first action of a diagnostic
    proposes has no duplicate and holds exactly the ids of the setting and
    the id of the diagnostic's rule; when the setting has no duplicate it is
    the setting itself if the rule is already suppressed, and the setting
    followed by the new id otherwise. *)
Theorem onCodeAction_suppressByRuleId documentCache params_uri ds l i d :
  onCodeAction updateDiagnosticsSettingCommand suppressByRuleId_setting
    documentCache params_uri ds = Some l →
  ds !! i = Some d →
  ∃ suppressThis ids,
    l !! (2 * i) = Some suppressThis ∧
    arguments (action_command suppressThis) = [UpdateSuppressByRuleId ids] ∧
    NoDup ids ∧
    (∀ x, x ∈ ids ↔ x ∈ suppressByRuleId_setting ∨ x = data d) ∧
    (NoDup suppressByRuleId_setting →
     ids = if bool_decide (data d ∈ suppressByRuleId_setting)
           then suppressByRuleId_setting
           else suppressByRuleId_setting ++ [data d]).
Proof.
  unfold onCodeAction.
  destruct (documentCache !! params_uri) as [document|]; [|done].
  destruct (length ds =? 0); [done|]. intros [= <-] Hi.
  rewrite foldl_pushActions, app_nil_l.
  destruct (lookup_pushed ds i d Hi) as [H0 _]. rewrite H0. simpl.
  eexists _, _. split; [done|]. split; [done|]. unfold Array_from.
  destruct (foldl_Set_add [] suppressByRuleId_setting (NoDup_nil_2))
    as (Hnd & Hin & Hid). fold (new_Set suppressByRuleId_setting) in *.
  split; [by apply NoDup_Set_add|]. split.
  - intros x. rewrite elem_of_Set_add, Hin, elem_of_nil. tauto.
  - intros Hsetting. rewrite (Hid Hsetting). simpl. done.
Qed.

End Handlers.

End ServerFacts.

(** * Facts about [WorkspaceUtils] *)

Module WorkspaceFacts.
Import WorkspaceUtils.

Section Workspace.

Variable path_join : list string → string.
Variable existsSync : string → bool.
Variable access : string → bool.
Variable PACKAGE_JSON : string.
Variable SFDX_PROJECT_FILE : string.

(** X23: without a workspace folder [getWorkspaceDir] throws
    [NoWorkspaceError]; the three checks catch it and answer [false], and the
    promise of [getStaticResourcesDir] is rejected with it; with folders, all
    of them look at the first folder only. *)
Theorem workspace_checks_use_first_folder workspaceFolders :
  ((workspaceFolders = None ∨ workspaceFolders = Some []) →
   getWorkspaceDir workspaceFolders = Thrown NoWorkspaceError ∧
   packageJsonExists path_join existsSync PACKAGE_JSON workspaceFolders
     = false ∧
   lwcFolderExists path_join existsSync workspaceFolders = false ∧
   isSfdxProjectOpened path_join existsSync SFDX_PROJECT_FILE workspaceFolders
     = false ∧
   getStaticResourcesDir path_join access workspaceFolders
     = Thrown NoWorkspaceError) ∧
  (∀ folder others,
     workspaceFolders = Some (folder :: others) →
     packageJsonExists path_join existsSync PACKAGE_JSON workspaceFolders
       = existsSync (path_join [folder; PACKAGE_JSON]) ∧
     lwcFolderExists path_join existsSync workspaceFolders
       = existsSync (path_join [folder; LWC_PATH path_join]) ∧
     isSfdxProjectOpened path_join existsSync SFDX_PROJECT_FILE
       workspaceFolders
       = existsSync (path_join [folder; SFDX_PROJECT_FILE]) ∧
     getStaticResourcesDir path_join access workspaceFolders
       = if access (path_join [folder; STATIC_RESOURCES_PATH path_join])
         then Returned (path_join [folder; STATIC_RESOURCES_PATH path_join])
         else Thrown (NoStaticResourcesDirError
                        (path_join [folder; STATIC_RESOURCES_PATH path_join]))).
Proof.
  split.
  - by intros [-> | ->].
  - by intros folder others ->.
Qed.

End Workspace.

End WorkspaceFacts.

(** * The further facts at concrete inputs *)

Module MoreWitnesses.
Import ValidateGraphql Spec Examples OrgUtils OrgExamples OrgReset.
Import PositionOrder RuleCalls MoreExamples.
Import PipelineFacts PipelineMore OrgFacts OrgMore.

Lemma fragments_after_cap_are_not_visited_witness :
  validateQueries unit ex_parse ex_two_rules 2
    ([ex_good_source] ++ [ex_bad_source]) [] ex_world
  = validateQueries unit ex_parse ex_two_rules 2 [ex_good_source] []
      ex_world.
Proof.
  apply (fragments_after_cap_are_not_visited unit ex_parse ex_two_rules 2
           [ex_good_source] [ex_bad_source] [] ex_world _ _ eq_refl).
  simpl. lia.
Defined.

Lemma validateGraphql_cap_monotone_witness :
  ((1 ≤ 2)%Z ∧
   ex_pluck "file:///app.js" "two literals"
     = Normal [ex_good_source; ex_bad_source] ∧
   Forall settles ex_two_rules) ∧
  ∃ l l',
    fst (run_validateGraphql ex_two_rules "two literals" 1) = Fulfilled l ∧
    fst (run_validateGraphql ex_two_rules "two literals" 2) = Fulfilled l' ∧
    l `prefix_of` l'.
Proof.
  split; [split; [lia | split; [reflexivity | exact ex_rules_settle]]|].
  apply (validateGraphql_cap_monotone unit ex_parse ex_pluck ex_two_rules
           (ex_document "two literals") 1 2 ex_world
           [ex_good_source; ex_bad_source]);
    [lia | reflexivity | exact ex_rules_settle].
Defined.

Lemma validateGraphql_exact_count_witness :
  ∃ l,
    fst (run_validateGraphql ex_two_rules "two literals" 2) = Fulfilled l ∧
    length l = 2.
Proof.
  destruct (validateGraphql_exact_count unit ex_parse ex_pluck ex_two_rules
              (ex_document "two literals") 2 ex_world
              [ex_good_source; ex_bad_source] eq_refl ex_rules_settle)
    as (l & Hl & Hlen).
  exists l. split; [exact Hl | exact Hlen].
Defined.

Lemma updateDiagnosticOffset_keeps_order_witness :
  Position_le (mkPosition 0 3) (mkPosition 0 8) ∧
  ∃ ps' pe',
    updateDiagnosticOffset ex_range_diagnostic 4 11 ex_range_heap !! 0
      = Some ps' ∧
    updateDiagnosticOffset ex_range_diagnostic 4 11 ex_range_heap !! 1
      = Some pe' ∧
    Position_le ps' pe'.
Proof.
  assert (Position_le (mkPosition 0 3) (mkPosition 0 8)) as Hle.
  { left. right. simpl. split; [reflexivity | lia]. }
  split; [exact Hle|].
  destruct (updateDiagnosticOffset_keeps_order ex_range_diagnostic 4 11
              ex_range_heap (mkPosition 0 3) (mkPosition 0 8)
              eq_refl eq_refl Hle) as (ps' & pe' & Hs & He & Hle' & _).
  exists ps', pe'. split; [exact Hs|]. split; [exact He | exact Hle'].
Defined.

Lemma pushItems_touches_only_pushed_witness :
  snd (pushItems 1 4 11
         [ex_range_diagnostic; mkDiagnostic (mkRange 2 3) 2 "second" "rule-b"]
         [] ex_range_heap) !! 2
  = ex_range_heap !! 2.
Proof.
  apply (proj2 (pushItems_touches_only_pushed 1 4 11
                  [ex_range_diagnostic;
                   mkDiagnostic (mkRange 2 3) 2 "second" "rule-b"]
                  [] ex_range_heap)).
  intros d Hd. apply list_elem_of_singleton in Hd as ->.
  split; discriminate.
Defined.

Lemma ex_rules_never_throw :
  Forall never_throws [ex_first_line_rule; ex_rejecting_rule].
Proof. repeat constructor; intros ? ? ?; discriminate. Qed.

Lemma rules_called_once_in_registry_order_witness :
  calls (snd (validateOneGraphQuery unit ex_parse
                [ex_first_line_rule; ex_rejecting_rule]
                (TextDocument_create "" "graphql" 1 "query { a }")
                "query { a }" ex_world))
  = [CallParse "query { a }"; CallProducer 0 "query { a }";
     CallProducer 1 "query { a }"].
Proof.
  exact (rules_called_once_in_registry_order unit ex_parse
           [ex_first_line_rule; ex_rejecting_rule]
           (TextDocument_create "" "graphql" 1 "query { a }")
           "query { a }" ex_world ex_rules_never_throw).
Defined.

Lemma response_is_cached_witness :
  "Contact" ≠ "Account" ∧
  fst (getObjectInfoFromCache "Contact"
         (objectInfoResponseCallback "Account" "Account: Name" ex_connected))
  = fst (getObjectInfoFromCache "Contact" ex_connected).
Proof.
  split; [discriminate|].
  apply (proj2 (proj2 (response_is_cached string "Account" "Account: Name"
                         ex_connected))).
  discriminate.
Defined.

Lemma getObjectInfoFromCache_idempotent_witness :
  fst (getObjectInfoFromCache "Account"
         (objectInfoResponseCallback "Account" "Account: Name" ex_connected))
  = Some "Account: Name" ∧
  objectInfoInMemoCache
    (snd (getObjectInfoFromCache "Account"
            (objectInfoResponseCallback "Account" "Account: Name"
               ex_connected)))
    !! "Account" = Some "Account: Name".
Proof.
  split; [reflexivity|].
  apply (proj2 (proj2 (getObjectInfoFromCache_idempotent string "Account"
                         (objectInfoResponseCallback "Account" "Account: Name"
                            ex_connected)))).
  reflexivity.
Defined.



Lemma getObjectInfo_served_from_cache_witness :
  (connectStatus
     (objectInfoResponseCallback "Account" "Account: Name" ex_connected)
   = CONNECTED ∧
   fst (getObjectInfoFromCache "Account"
          (objectInfoResponseCallback "Account" "Account: Name" ex_connected))
   = Some "Account: Name") ∧
  fst (getObjectInfo "Account" ex_net_no_session
         (objectInfoResponseCallback "Account" "Account: Name" ex_connected))
  = Fulfilled (Some "Account: Name").
Proof.
  split; [split; reflexivity|].
  apply (proj1 (getObjectInfo_served_from_cache string "Account"
                  "Account: Name" ex_net_no_session
                  (objectInfoResponseCallback "Account" "Account: Name"
                     ex_connected) eq_refl eq_refl)).
Defined.



Lemma org_change_defeats_single_flight_witness :
  flights ex_in_flight !! 0 = Some (mkFlight "Account" AwaitResponse) ∧
  fst (getObjectInfo_proceed "Account" CONNECTED
         (snd (checkAuthStatus (Created ex_connection)
                 (Normal ["Account"; "Contact"])
                 (onAuthOrgChanged true ex_folder ex_in_flight))))
  = InFlight 1.
Proof.
  split; [reflexivity|].
  apply (proj1 (proj2 (org_change_defeats_single_flight string true ex_folder
                         "Account" 0 Throw ex_in_flight
                         (snd (checkAuthStatus (Created ex_connection)
                                 (Normal ["Account"; "Contact"])
                                 (onAuthOrgChanged true ex_folder
                                    ex_in_flight)))
                         eq_refl eq_refl eq_refl eq_refl eq_refl))).
Defined.

Lemma response_after_org_change_is_cached_witness :
  flights ex_in_flight !! 0 = Some (mkFlight "Account" AwaitResponse) ∧
  fst (getObjectInfo "Account" ex_net_request_fails
         (executor_respond 0 (Normal (Some "Account of the old org"))
            (onAuthOrgChanged true ex_folder ex_in_flight)))
  = Fulfilled (Some "Account of the old org").
Proof.
  split; [reflexivity|].
  apply (proj2 (proj2 (response_after_org_change_is_cached string true
                         ex_folder "Account" 0 "Account of the old org"
                         ex_net_request_fails ex_in_flight eq_refl))).
  reflexivity.
Defined.

Import YamlParser YamlFacts Server ServerFacts.

Lemma ex_level_NoDup : NoDup ["Account"; "Contact"].
Proof. apply (bool_decide_unpack _). reflexivity. Qed.

Lemma transformYamlToObject_result_witness :
  ex_yaml_parse "good" = Normal ex_yaml ∧
  ∃ result,
    ex_transform "good" "values" = Returned result ∧
    result !! "Account" = Some ["Name"; "Phone"].
Proof.
  split; [reflexivity|].
  destruct (transformYamlToObject_result ex_yaml_parse
              ex_Object_prototype_has ex_Array_prototype_has "good" "values"
              _ _ eq_refl eq_refl ex_level_NoDup)
    as (result & Hres & _ & Hkeys).
  - repeat constructor; by eexists.
  - exists result. split; [exact Hres|].
    apply (Hkeys "Account"). discriminate.
Defined.

Lemma transformYamlToObject_all_or_nothing_witness :
  ex_yaml_parse "bad" = Normal ex_yaml_bad ∧
  ex_transform "bad" "values" = Thrown (NotAnArrayOfStrings "Contact").
Proof.
  split; [reflexivity|].
  apply (proj2 (transformYamlToObject_all_or_nothing ex_yaml_parse
                  ex_Object_prototype_has ex_Array_prototype_has "bad"
                  "values" _ _ eq_refl eq_refl)
           [("Account", YSeq [YString "Name"])] "Contact" (YString "Email")
           [("Lead", YNumber 3)] eq_refl).
  - repeat constructor; by eexists.
  - reflexivity.
Defined.

Lemma transformYamlToObject_missing_level_witness :
  ex_transform "good" "rules" = Thrown (DesignatedLevelNotFound "rules") ∧
  ex_transform "good" "toString" = Returned ∅.
Proof.
  split.
  - apply (transformYamlToObject_missing_level ex_yaml_parse
             ex_Object_prototype_has ex_Array_prototype_has "good" "rules"
             _ eq_refl eq_refl).
  - apply (transformYamlToObject_missing_level ex_yaml_parse
             ex_Object_prototype_has ex_Array_prototype_has "good" "toString"
             _ eq_refl eq_refl).
Defined.

Lemma onCodeAction_two_actions_each_witness :
  ∃ l,
    onCodeAction "updateSetting" ["rule-a"] ex_documentCache "file:///app.js"
      ex_reported = Some l ∧
    length l = 4.
Proof.
  eexists. split; [reflexivity|].
  apply (proj2 (onCodeAction_two_actions_each "updateSetting" ["rule-a"]
                  ex_documentCache "file:///app.js" ex_reported) _ eq_refl).
Defined.

Lemma onCodeAction_suppressByRuleId_witness :
  ∃ l suppressThis,
    onCodeAction "updateSetting" ["rule-a"] ex_documentCache "file:///app.js"
      ex_reported = Some l ∧
    l !! 2 = Some suppressThis ∧
    arguments (action_command suppressThis)
    = [UpdateSuppressByRuleId ["rule-a"; "rule-b"]].
Proof.
  destruct (onCodeAction_suppressByRuleId "updateSetting" ["rule-a"]
              ex_documentCache "file:///app.js" ex_reported _ 1
              (mkDiagnostic (mkRange 2 3) 2 "unknown object" "rule-b")
              eq_refl eq_refl)
    as (suppressThis & ids & Hl & Hargs & _ & _ & Hids).
  eexists _, suppressThis. split; [reflexivity|]. split; [exact Hl|].
  rewrite Hargs, Hids; [reflexivity|].
  apply (bool_decide_unpack _). reflexivity.
Defined.

Import WorkspaceUtils WorkspaceFacts.

Lemma workspace_checks_use_first_folder_witness :
  isSfdxProjectOpened ex_path_join ex_existsSync "sfdx-project.json" None
    = false ∧
  isSfdxProjectOpened ex_path_join ex_existsSync "sfdx-project.json"
    (Some ["/project"; "/other"]) = true.
Proof.
  split.
  - apply (proj1 (workspace_checks_use_first_folder ex_path_join ex_existsSync
                    ex_existsSync "package.json" "sfdx-project.json" None)).
    by left.
  - destruct (proj2 (workspace_checks_use_first_folder ex_path_join
                       ex_existsSync ex_existsSync "package.json"
                       "sfdx-project.json" (Some ["/project"; "/other"]))
                "/project" ["/other"] eq_refl) as (_ & _ & Hsfdx & _).
    rewrite Hsfdx. reflexivity.
Defined.

End MoreWitnesses.
